(** * Read_Pressures_Temperatures: the decode / correct / convert pipeline

    A shallow embedding of [Read_Pressures_Temperatures.py] (frame
    extraction, outlier correction, unit conversion and the daily
    rotation of the log files) together with the properties of the
    specification that concern it.

    Numbers.  The program computes with numpy [float64] values.  They are
    modelled as the reals extended with [+inf], [-inf] and [nan]: the
    special values follow the IEEE 754 rules numpy applies (a division by
    zero or the logarithm of a negative number returns a special value and
    only warns), finite values carry exact real arithmetic.  Rounding,
    overflow of finite results and the sign of zero are not modelled: zero
    stands for [+0.0], the only zero that the subtractions and additions
    of the program produce under round-to-nearest. *)

From Stdlib Require Import Reals Lra Lia List String Ascii Bool Arith ZArith.
Import ListNotations.

Open Scope R_scope.

(* ================================================================== *)
(** * Part I.  The embedding                                           *)
(* ================================================================== *)

(** ** Outcomes of a Python call *)

(** The exceptions the modelled statements can raise. *)
Inductive exn : Type :=
| ValueError        (* float() of a malformed string, reduction of an empty array *)
| IndexError.       (* hlp[i+1] past the end of the text *)

(** A call either returns a value or raises. *)
Inductive outcome (A : Type) : Type :=
| Returns (a : A)
| Raises (e : exn).

Arguments Returns {A} a.
Arguments Raises {A} e.

Definition bind {A B : Type} (m : outcome A) (k : A -> outcome B) : outcome B :=
  match m with
  | Returns a => k a
  | Raises e => Raises e
  end.

Notation "x <- m ;; k" := (bind m (fun x => k))
  (at level 61, m at next level, right associativity).

(** ** numpy float64 scalars *)

Inductive float64 : Type :=
| Fin (r : R)
| PInf
| NInf
| NaN.

Definition Rltb (x y : R) : bool := if Rlt_dec x y then true else false.
Definition Reqb (x y : R) : bool := if Req_dec_T x y then true else false.

Definition isnan (a : float64) : bool :=
  match a with NaN => true | _ => false end.

Definition isfinite (a : float64) : bool :=
  match a with Fin _ => true | _ => false end.

(** [a < b]; every comparison with [nan] is false. *)
Definition flt (a b : float64) : bool :=
  match a, b with
  | NaN, _ | _, NaN => false
  | Fin x, Fin y => Rltb x y
  | Fin _, PInf => true
  | Fin _, NInf => false
  | PInf, _ => false
  | NInf, NInf => false
  | NInf, _ => true
  end.

(** [a > b]. *)
Definition fgt (a b : float64) : bool := flt b a.

(** [a == b]. *)
Definition feq (a b : float64) : bool :=
  match a, b with
  | Fin x, Fin y => Reqb x y
  | PInf, PInf => true
  | NInf, NInf => true
  | _, _ => false
  end.

(** [a <= b]. *)
Definition fle (a b : float64) : bool := flt a b || feq a b.

Definition fneg (a : float64) : float64 :=
  match a with
  | Fin x => Fin (- x)
  | PInf => NInf
  | NInf => PInf
  | NaN => NaN
  end.

Definition fadd (a b : float64) : float64 :=
  match a, b with
  | NaN, _ | _, NaN => NaN
  | Fin x, Fin y => Fin (x + y)
  | PInf, NInf | NInf, PInf => NaN
  | PInf, _ | _, PInf => PInf
  | NInf, _ | _, NInf => NInf
  end.

Definition fsub (a b : float64) : float64 := fadd a (fneg b).

Definition fabs (a : float64) : float64 :=
  match a with
  | Fin x => Fin (Rabs x)
  | PInf | NInf => PInf
  | NaN => NaN
  end.

(** The infinity of the sign of [x * s], for [s] the sign of an infinity
    ([true] for [+inf]); [nan] when [x] is zero. *)
Definition inf_times (s : bool) (x : R) : float64 :=
  if Reqb x 0 then NaN
  else if Rltb 0 x then (if s then PInf else NInf)
  else (if s then NInf else PInf).

Definition fmul (a b : float64) : float64 :=
  match a, b with
  | NaN, _ | _, NaN => NaN
  | Fin x, Fin y => Fin (x * y)
  | Fin x, PInf | PInf, Fin x => inf_times true x
  | Fin x, NInf | NInf, Fin x => inf_times false x
  | PInf, PInf | NInf, NInf => PInf
  | PInf, NInf | NInf, PInf => NInf
  end.

(** numpy's true division: [x / 0] is an infinity of the sign of [x]
    (and [0 / 0] is [nan]); it warns and raises nothing. *)
Definition fdiv (a b : float64) : float64 :=
  match a, b with
  | NaN, _ | _, NaN => NaN
  | Fin x, Fin y =>
      if Reqb y 0 then
        (if Reqb x 0 then NaN else if Rltb 0 x then PInf else NInf)
      else Fin (x / y)
  | Fin _, PInf | Fin _, NInf => Fin 0
  | PInf, Fin y => if Rltb y 0 then NInf else PInf
  | NInf, Fin y => if Rltb y 0 then PInf else NInf
  | _, _ => NaN
  end.

(** [a ** n] for a literal exponent [n >= 1] (the program uses 2 and 3). *)
Fixpoint fpow (a : float64) (n : nat) : float64 :=
  match n with
  | O => Fin 1
  | S O => a
  | S m => fmul a (fpow a m)
  end.

(** [10 ** a]. *)
Definition pow10 (a : float64) : float64 :=
  match a with
  | Fin x => Fin (Rpower 10 x)
  | PInf => PInf
  | NInf => Fin 0
  | NaN => NaN
  end.

(** [np.log(a)]: [-inf] at zero, [nan] below (with a warning only). *)
Definition np_log (a : float64) : float64 :=
  match a with
  | Fin x => if Rltb 0 x then Fin (ln x)
             else if Reqb x 0 then NInf else NaN
  | PInf => PInf
  | NInf => NaN
  | NaN => NaN
  end.

(** ** numpy arrays of float64 (one-dimensional) *)

Definition ndarray : Type := list float64.

(** [np.maximum] and [np.minimum] propagate [nan]. *)
Definition fmax (a b : float64) : float64 :=
  if isnan a then a else if isnan b then b else if flt a b then b else a.

Definition fmin (a b : float64) : float64 :=
  if isnan a then a else if isnan b then b else if flt b a then b else a.

(** Reductions of a non-empty array. *)
Fixpoint amax1 (a : float64) (l : ndarray) : float64 :=
  match l with
  | [] => a
  | b :: l' => amax1 (fmax a b) l'
  end.

Fixpoint amin1 (a : float64) (l : ndarray) : float64 :=
  match l with
  | [] => a
  | b :: l' => amin1 (fmin a b) l'
  end.

(** [a.ptp()]: maximum minus minimum; a zero-size array raises. *)
Definition ptp (vols : ndarray) : outcome float64 :=
  match vols with
  | [] => Raises ValueError
  | a :: l => Returns (fsub (amax1 a l) (amin1 a l))
  end.

(** [a.sum()], starting from [0.0]. *)
Definition asum (l : ndarray) : float64 := fold_left fadd l (Fin 0).

Definition of_nat (n : nat) : float64 := Fin (INR n).

(** [a.mean()]: the sum over the count; [nan] for an empty array
    (0.0 / 0, numpy warns "Mean of empty slice"). *)
Definition mean (l : ndarray) : float64 := fdiv (asum l) (of_nat (List.length l)).

(** Sorting, as [np.median] needs it (arrays holding a [nan] are answered
    before the order is consulted). *)
Fixpoint insert (a : float64) (l : ndarray) : ndarray :=
  match l with
  | [] => [a]
  | b :: l' => if fle a b then a :: l else b :: insert a l'
  end.

Fixpoint sort (l : ndarray) : ndarray :=
  match l with
  | [] => []
  | a :: l' => insert a (sort l')
  end.

(** [np.median(a)]: [nan] as soon as the array holds a [nan]; otherwise
    the middle element of the sorted array, or the mean of the two middle
    elements for an even length. *)
Definition median (l : ndarray) : float64 :=
  if existsb isnan l then NaN
  else
    let s := sort l in
    let n := List.length l in
    if Nat.even n
    then mean [nth (n / 2 - 1) s NaN; nth (n / 2) s NaN]
    else nth (n / 2) s NaN.

(** [a - m], [abs(a)], [a < t] elementwise, and boolean-mask indexing. *)
Definition sub_scalar (l : ndarray) (m : float64) : ndarray :=
  map (fun v => fsub v m) l.

Definition abs_array (l : ndarray) : ndarray := map fabs l.

Definition lt_scalar (l : ndarray) (t : float64) : list bool :=
  map (fun v => flt v t) l.

Fixpoint mask_index (l : ndarray) (m : list bool) : ndarray :=
  match l, m with
  | v :: l', b :: m' => if b then v :: mask_index l' m' else mask_index l' m'
  | _, _ => []
  end.

(** ** Python's [float(str)]

    Texts are strings over the code points below 256.  [float] strips
    white space, then accepts an optional sign followed by [inf],
    [infinity] or [nan] in any case, or by a decimal number: digits with
    an optional fraction and an optional exponent, where one underscore
    may separate two digits.  Anything else raises [ValueError]. *)

Definition is_space (c : ascii) : bool :=
  let n := nat_of_ascii c in
  ((9 <=? n) && (n <=? 13) || (28 <=? n) && (n <=? 32) || (n =? 133) || (n =? 160))%nat.

Definition digit_of (c : ascii) : option Z :=
  let n := nat_of_ascii c in
  if ((48 <=? n) && (n <=? 57))%nat then Some (Z.of_nat (n - 48)) else None.

Definition lower (c : ascii) : ascii :=
  let n := nat_of_ascii c in
  if ((65 <=? n) && (n <=? 90))%nat then ascii_of_nat (n + 32) else c.

Fixpoint lstrip (l : list ascii) : list ascii :=
  match l with
  | c :: l' => if is_space c then lstrip l' else l
  | [] => []
  end.

Definition strip (l : list ascii) : list ascii := rev (lstrip (rev (lstrip l))).

(** The rest of a digit part: [(["_"] digit)*].  Returns the value and the
    number of digits read so far, and what follows. *)
Fixpoint digits_more (acc : Z) (n : nat) (l : list ascii) : Z * nat * list ascii :=
  match l with
  | c :: l' =>
      match digit_of c with
      | Some d => digits_more (acc * 10 + d) (S n) l'
      | None =>
          if Ascii.eqb c "_" then
            match l' with
            | c2 :: l'' =>
                match digit_of c2 with
                | Some d => digits_more (acc * 10 + d) (S n) l''
                | None => (acc, n, l)
                end
            | [] => (acc, n, l)
            end
          else (acc, n, l)
      end
  | [] => (acc, n, l)
  end.

(** A digit part [digit (["_"] digit)*], continuing the value [acc]. *)
Definition digitpart (acc : Z) (l : list ascii) : option (Z * nat * list ascii) :=
  match l with
  | c :: l' =>
      match digit_of c with
      | Some d => Some (digits_more (acc * 10 + d) 1 l')
      | None => None
      end
  | [] => None
  end.

(** [[sign]]: whether a minus sign was read, and what follows. *)
Definition sign (l : list ascii) : bool * list ascii :=
  match l with
  | c :: l' =>
      if Ascii.eqb c "-" then (true, l')
      else if Ascii.eqb c "+" then (false, l')
      else (false, l)
  | [] => (false, l)
  end.

(** What a float literal denotes: a decimal [mant * 10^exp10], an
    infinity or [nan]. *)
Inductive literal : Type :=
| LNum (mant : Z) (exp10 : Z)
| LInf
| LNan.

(** [number ::= [digitpart] "." digitpart | digitpart ["."]]: the digits as
    an integer and the number of digits of the fraction. *)
Definition number (l : list ascii) : option (Z * nat * list ascii) :=
  match digitpart 0 l with
  | Some (m, _, rest) =>
      match rest with
      | c :: rest' =>
          if Ascii.eqb c "." then
            match digitpart m rest' with
            | Some (m', k, rest'') => Some (m', k, rest'')
            | None => Some (m, O, rest')
            end
          else Some (m, O, rest)
      | [] => Some (m, O, rest)
      end
  | None =>
      match l with
      | c :: l' =>
          if Ascii.eqb c "." then digitpart 0 l' else None
      | [] => None
      end
  end.

(** [exponent ::= ("e" | "E") [sign] digitpart], optional. *)
Definition exponent (l : list ascii) : option (Z * list ascii) :=
  match l with
  | c :: l' =>
      if Ascii.eqb (lower c) "e" then
        let (neg, l'') := sign l' in
        match digitpart 0 l'' with
        | Some (e, _, rest) => Some (if neg then (- e)%Z else e, rest)
        | None => None
        end
      else Some (0%Z, l)
  | [] => Some (0%Z, l)
  end.

Definition absfloatvalue (l : list ascii) : option literal :=
  let word := String.string_of_list_ascii (map lower l) in
  if String.eqb word "inf" || String.eqb word "infinity" then Some LInf
  else if String.eqb word "nan" then Some LNan
  else
    match number l with
    | Some (m, k, rest) =>
        match exponent rest with
        | Some (e, []) => Some (LNum m (e - Z.of_nat k))
        | _ => None
        end
    | None => None
    end.

(** [floatvalue ::= [sign] absfloatvalue], between white space. *)
Definition parse_float (s : string) : option (bool * literal) :=
  let (neg, l) := sign (strip (String.list_ascii_of_string s)) in
  match absfloatvalue l with
  | Some v => Some (neg, v)
  | None => None
  end.

Definition literal_value (v : literal) : float64 :=
  match v with
  | LNum m e => Fin (IZR m * powerRZ 10 e)
  | LInf => PInf
  | LNan => NaN
  end.

Definition py_float (s : string) : outcome float64 :=
  match parse_float s with
  | Some (neg, v) => Returns (if neg then fneg (literal_value v) else literal_value v)
  | None => Raises ValueError
  end.

(** ** Text indexing and slicing *)

(** [hlp[i]]: raises [IndexError] past the end. *)
Definition index (hlp : string) (i : nat) : outcome ascii :=
  match String.get i hlp with
  | Some c => Returns c
  | None => Raises IndexError
  end.

(** [hlp[a:b]]: a slice never raises, it stops at the end of the text. *)
Definition slice (hlp : string) (a b : nat) : string :=
  String.substring a (b - a) hlp.

Definition LF : ascii := "010"%char.
Definition CR : ascii := "013"%char.

(** ** [read_series] and [get_voltages] (lines 66-107) *)

(** One [ser.read(8*cycle)]: bytes that decode to a text, or bytes that
    [decode()] rejects (a Type 1 error). *)
Inductive chunk : Type :=
| Text (hlp : string)
| Garbled.

(** The serial port: the reads still to come.  When none is left the
    program blocks in [ser.read]; the model answers [None]. *)
Definition port : Type := list chunk.

Fixpoint read_series (ser : port) : option (string * port) :=
  match ser with
  | [] => None
  | Text hlp :: ser' => Some (hlp, ser')
  | Garbled :: ser' => read_series ser'
  end.

Definition voltages : Type := (float64 * float64 * float64 * float64)%type.

(** The body of the [try] at position [i]: [Some] the four voltages when
    the frame is converted, [None] when the test fails and the loop goes
    on. *)
Definition try_frame (hlp : string) (i : nat) (char : ascii) : outcome (option voltages) :=
  if Ascii.eqb char LF then
    next <- index hlp (i + 1) ;;
    if Ascii.eqb next "4" then
      voltage_room <- py_float (slice hlp (i + 2) (i + 6)) ;;
      voltage_cryo <- py_float (slice hlp (i + 9) (i + 13)) ;;
      voltage_ICR <- py_float (slice hlp (i + 16) (i + 20)) ;;
      voltage_ICH <- py_float (slice hlp (i + 23) (i + 27)) ;;
      Returns (Some (voltage_room, voltage_cryo, voltage_ICR, voltage_ICH))
    else Returns None
  else Returns None.

(** [for i, char in enumerate(hlp)], from position [i] on: a converted
    frame and an exception both leave the loop. *)
Fixpoint scan (hlp : string) (i : nat) (rest : list ascii) : option voltages :=
  match rest with
  | [] => None
  | char :: rest' =>
      match try_frame hlp i char with
      | Returns (Some v) => Some v
      | Returns None => scan hlp (S i) rest'
      | Raises _ => None
      end
  end.

(** One turn of [while not converted] on the text [hlp]: [None] when
    [converted] is still false. *)
Definition scan_chunk (hlp : string) : option voltages :=
  scan hlp 0 (String.list_ascii_of_string hlp).

(** [get_voltages]: reads go on until a frame is converted.  Each turn
    consumes at least one read, hence the recursion on the port, with
    [read_series] unfolded in it; [get_voltages_read_series] below states
    the turn of the loop as the source writes it. *)
Fixpoint get_voltages (ser : port) : option (voltages * port) :=
  match ser with
  | [] => None
  | Garbled :: ser' => get_voltages ser'
  | Text hlp :: ser' =>
      match scan_chunk hlp with
      | Some v => Some (v, ser')
      | None => get_voltages ser'
      end
  end.

(** ** [correct] (lines 116-126) *)

Definition correct (vols : ndarray) (TOL : float64) : outcome float64 :=
  p <- ptp vols ;;
  if fgt p TOL then
    let good_datas := lt_scalar (abs_array (sub_scalar vols (median vols))) TOL in
    Returns (mean (mask_index vols good_datas))
  else
    Returns (mean vols).

(** Default tolerance of [correct] and of [get_pressure_temperature]. *)
Definition TOL_default : float64 := Fin (1 / 10).

(** ** [T] and [convert] (lines 128-156) *)

Definition A : float64 := Fin (3354016 / 1000000000).
Definition B : float64 := Fin (2460382 / 10000000000).
Definition C : float64 := Fin (3405377 / 1000000000000).
Definition D : float64 := Fin (1034240 / 10000000000000).
Definition R25 : float64 := Fin 100000.

Definition T (R_ohm : float64) : float64 :=
  let hlp := np_log (fdiv R_ohm R25) in
  let TK := fdiv (Fin 1)
                 (fadd (fadd (fadd A (fmul B hlp)) (fmul C (fpow hlp 2)))
                       (fmul D (fpow hlp 3))) in
  let TC := fsub TK (Fin (27315 / 100)) in
  TC.

(** [convert] is called with the numpy scalars that [correct] returns, so
    its divisions are numpy's: they warn and return a special value.  It
    has no [raise] and no test of its inputs; its outcome is always
    [Returns]. *)
Definition R0_ICR : float64 := Fin 100000.
Definition R0_ICH : float64 := Fin 100000.
Definition V_s : float64 := Fin (33 / 10).

Definition convert (v_room v_cryo v_ICR v_ICH : float64)
  : outcome (float64 * float64 * float64 * float64) :=
  let p_room := pow10 (fsub (fmul v_room (Fin 3)) (Fin 10)) in
  let p_cryo := pow10 (fsub (fmul v_cryo (Fin 3)) (Fin 10)) in
  let R_ICR := fmul (fdiv v_ICR (fsub V_s v_ICR)) R0_ICR in
  let R_ICH := fmul (fdiv v_ICH (fsub V_s v_ICH)) R0_ICH in
  let T_ICR := T R_ICR in
  let T_ICH := T R_ICH in
  Returns (p_room, p_cryo, T_ICR, T_ICH).

(** ** [get_pressure_temperature] (lines 158-174) *)

(** [for i in range(repeat): vols_room[i], ... = get_voltages()]: the
    quadruples read, in order. *)
Fixpoint collect (repeat : nat) (ser : port) : option (list voltages * port) :=
  match repeat with
  | O => Some ([], ser)
  | S n =>
      match get_voltages ser with
      | None => None
      | Some (v, ser') =>
          match collect n ser' with
          | None => None
          | Some (vs, ser'') => Some (v :: vs, ser'')
          end
      end
  end.

Definition col_room (vs : list voltages) : ndarray := map (fun v => fst (fst (fst v))) vs.
Definition col_cryo (vs : list voltages) : ndarray := map (fun v => snd (fst (fst v))) vs.
Definition col_ICR (vs : list voltages) : ndarray := map (fun v => snd (fst v)) vs.
Definition col_ICH (vs : list voltages) : ndarray := map (fun v => snd v) vs.

Definition repeat_default : nat := 5.

Definition get_pressure_temperature (repeat : nat) (TOL : float64) (ser : port)
  : option (outcome voltages * port) :=
  match collect repeat ser with
  | None => None
  | Some (vs, ser') =>
      Some (voltage_room <- correct (col_room vs) TOL ;;
            voltage_cryo <- correct (col_cryo vs) TOL ;;
            voltage_ICR <- correct (col_ICR vs) TOL ;;
            voltage_ICH <- correct (col_ICH vs) TOL ;;
            convert voltage_room voltage_cryo voltage_ICR voltage_ICH,
            ser')
  end.

(** ** The logger loop (lines 232-268)

    The loop is driven by its environment: the dates that the successive
    calls of [datetime.now()] yield, and what each execution of the [try]
    body does.  Both are given as the inputs still to come; when one is
    needed and none is left, the model stops. *)

Inductive channel : Type := Room | Cryo | Rough | Temp.

Definition path_rough : string := "Z:\Logs\1041_Dewar_Foreline\".
Definition path_room : string := "Z:\Logs\1041_Chamber_Pressure\".
Definition path_cryo : string := "Z:\Logs\1041_Dewar_Pressure\".
Definition path_temp : string := "Z:\Logs\1041_Chilled_Water\".

Definition path (c : channel) : string :=
  match c with
  | Room => path_room
  | Cryo => path_cryo
  | Rough => path_rough
  | Temp => path_temp
  end.

Definition suffix (c : channel) : string :=
  match c with
  | Room => "_chamber.log"
  | Cryo => "_dewar.log"
  | Rough => "_foreline.log"
  | Temp => "_temperature.log"
  end.

(** [path + current_date + suffix]. *)
Definition log_name (c : channel) (date : string) : string :=
  (path c ++ date ++ suffix c)%string.

Arguments log_name : simpl never.

(** The four files of a date, in the order the [with] statement opens
    them. *)
Definition files_of (date : string) : list string :=
  [log_name Room date; log_name Cryo date; log_name Rough date; log_name Temp date].

(** What the loop does to the file system, and its pause. *)
Inductive event : Type :=
| Open (name : string)
| Close (name : string)
| Write (name line : string)
| Flush (name : string)
| Sleep.

(** The four lines [get_log_text] returns. *)
Record log_text : Type := {
  str_room : string;
  str_cryo : string;
  str_rough : string;
  str_temp : string
}.

(** One execution of the [try] body: [get_log_text] raises, or it returns
    the lines and [completed] of the nine statements that follow (four
    writes, four flushes, the sleep) run before one raises; all nine ran
    when [completed] is 9 or more. *)
Inductive attempt : Type :=
| Raised_in_get_log_text
| Ran (text : log_text) (completed : nat).

Record world : Type := {
  clock : list string;
  attempts : list attempt
}.

(** Where control is: entering the [with] statement, at the head of the
    inner loop, inside [while not written]. *)
Inductive pc : Type := Outer | Inner | Retry.

Record RotationState : Type := {
  current_date : string;
  files : list string;
  at_pc : pc
}.

(** The nine statements of the [try] body after [get_log_text]. *)
Definition body_events (fs : list string) (text : log_text) : list event :=
  match fs with
  | [file_room; file_cryo; file_rough; file_temp] =>
      [Write file_room (str_room text); Write file_cryo (str_cryo text);
       Write file_rough (str_rough text); Write file_temp (str_temp text);
       Flush file_room; Flush file_cryo; Flush file_rough; Flush file_temp;
       Sleep]
  | _ => []
  end.

Definition tick (w : world) (clock' : list string) : world :=
  {| clock := clock'; attempts := attempts w |}.

Definition spend (w : world) (attempts' : list attempt) : world :=
  {| clock := clock w; attempts := attempts' |}.

Definition step (s : RotationState) (w : world)
  : option (RotationState * list event * world) :=
  match at_pc s with
  | Outer =>
      (* with open(...) as file_room, ...: *)
      let fs := files_of (current_date s) in
      Some ({| current_date := current_date s; files := fs; at_pc := Inner |},
            map Open fs, w)
  | Inner =>
      match clock w with
      | [] => None
      | date :: clock' =>
          if String.eqb date (current_date s) then
            (* written = False *)
            Some ({| current_date := current_date s; files := files s; at_pc := Retry |},
                  [], tick w clock')
          else
            (* current_date = date; break: the with statement closes its
               files, last opened first *)
            Some ({| current_date := date; files := []; at_pc := Outer |},
                  map Close (rev (files s)), tick w clock')
      end
  | Retry =>
      match attempts w with
      | [] => None
      | Raised_in_get_log_text :: attempts' => Some (s, [], spend w attempts')
      | Ran text completed :: attempts' =>
          Some ({| current_date := current_date s; files := files s;
                   at_pc := if (9 <=? completed)%nat then Inner else Retry |},
                firstn completed (body_events (files s) text),
                spend w attempts')
      end
  end.

(** [n] steps of the loop, with the events they produce. *)
Fixpoint run (n : nat) (s : RotationState) (w : world)
  : RotationState * list event * world :=
  match n with
  | O => (s, [], w)
  | S n' =>
      match step s w with
      | None => (s, [], w)
      | Some (s', ev, w') =>
          let '(s'', ev', w'') := run n' s' w' in (s'', ev ++ ev', w'')
      end
  end.

Definition trace (n : nat) (s : RotationState) (w : world) : list event :=
  snd (fst (run n s w)).

(** The head of the inner loop, the four files of [date] open. *)
Definition inner_state (date : string) : RotationState :=
  {| current_date := date; files := files_of date; at_pc := Inner |}.

(** A file named with [date]: the name of one of the channels for it. *)
Definition named_with (name date : string) : Prop :=
  exists c, name = log_name c date.

(** The rotation state is coherent: inside the [with] statement the open
    files are the four files of [current_date]. *)
Definition coherent (s : RotationState) : Prop :=
  match at_pc s with
  | Outer => True
  | Inner | Retry => files s = files_of (current_date s)
  end.

(** ** Vocabulary of the specification *)

(** "Values whose absolute deviation from the median is [< tolerance]":
    the test applied to one value [v], for the median [m]. *)
Definition within (m TOL : float64) (v : float64) : bool :=
  flt (fabs (fsub v m)) TOL.

(** The subset of [samples] the specification keeps. *)
Definition kept (samples : ndarray) (TOL : float64) : ndarray :=
  filter (within (median samples) TOL) samples.





Definition resistance_R (v : R) : R := v / (33 / 10 - v) * 100000.

Definition sh_poly (x : R) : R :=
  3354016 / 1000000000 + 2460382 / 10000000000 * x
  + 3405377 / 1000000000000 * x ^ 2 + 1034240 / 10000000000000 * x ^ 3.

Definition steinhart_hart_R (res : R) : R :=
  1 / sh_poly (ln (res / 100000)) - 27315 / 100.

(** Arrays without a [nan], arrays of finite values. *)
Definition nonan (l : ndarray) : Prop := Forall (fun v => isnan v = false) l.

Definition finite (l : ndarray) : Prop := Forall (fun v => isfinite v = true) l.

(** A frame marker at position [i]: a newline immediately followed by the
    digit 4. *)
Definition marker_at (hlp : string) (i : nat) : bool :=
  match String.get i hlp, String.get (i + 1) hlp with
  | Some c, Some d => Ascii.eqb c LF && Ascii.eqb d "4"
  | _, _ => false
  end.

Definition first_marker (hlp : string) (i : nat) : Prop :=
  marker_at hlp i = true /\ forall j, (j < i)%nat -> marker_at hlp j = false.

(** The four fields of the frame whose marker is at [i], parsed. *)
Definition parse_fields (hlp : string) (i : nat) : outcome voltages :=
  room <- py_float (slice hlp (i + 2) (i + 6)) ;;
  cryo <- py_float (slice hlp (i + 9) (i + 13)) ;;
  ICR <- py_float (slice hlp (i + 16) (i + 20)) ;;
  ICH <- py_float (slice hlp (i + 23) (i + 27)) ;;
  Returns (room, cryo, ICR, ICH).

(** What one chunk yields once its first frame is parsed: the voltages,
    or nothing when a field raised. *)
Definition frame_result (r : outcome voltages) : option voltages :=
  match r with
  | Returns v => Some v
  | Raises _ => None
  end.


(** Sorted for the order of float64. *)
Fixpoint sorted (l : ndarray) : Prop :=
  match l with
  | [] => True
  | a :: l' => (match l' with [] => True | b :: _ => fle a b = true end) /\ sorted l'
  end.

(** ** Example texts *)

Definition CRLF : string := String CR (String LF EmptyString).

(** A frame as the Arduino sends it: marker, then four 4-character
    readings 7 characters apart (reading, carriage return, newline, channel
    digit). *)
Definition frame_ok : string :=
  (String LF "41.23" ++ CRLF ++ "54.56" ++ CRLF ++ "67.89" ++ CRLF ++ "70.12")%string.

(** The same frame cut one character short by the end of the chunk. *)
Definition frame_short : string :=
  (String LF "41.23" ++ CRLF ++ "54.56" ++ CRLF ++ "67.89" ++ CRLF ++ "70.1")%string.

(** The buffer the specification quotes: newline, then
    [4123 4567 8901 2345]. *)
Definition frame_quoted : string := String LF "4123 4567 8901 2345".

(** A text without any marker. *)
Definition frame_none : string :=
  ("1.23" ++ CRLF ++ "54.56" ++ CRLF ++ "67.89" ++ CRLF)%string.

(** A frame whose room reading is the text [inf], and five reads of which
    three carry it. *)
Definition frame_inf : string :=
  (String LF "4inf " ++ CRLF ++ "54.56" ++ CRLF ++ "67.89" ++ CRLF ++ "70.12")%string.

Definition port_inf : port :=
  [Text frame_inf; Text frame_inf; Text frame_inf; Text frame_ok; Text frame_ok].

(** Example dates and lines for the logger loop. *)
Definition day1 : string := "2024-01-01".
Definition day2 : string := "2024-01-02".

Definition some_text : log_text :=
  {| str_room := "2024/01/02-00:00:30,1.2e-07";
     str_cryo := "2024/01/02-00:00:30,3.4e-08";
     str_rough := "2024/01/02-00:00:30,5.60E-02";
     str_temp := "2024/01/02-00:00:30,ICR temp,21.5,ICH temp,17.2" |}.

(** ** Vocabulary for the stream of reads *)

(** What one read contributes to [get_voltages]: the voltages of its first
    frame, when it decodes and the frame converts. *)
Definition converts (c : chunk) : option voltages :=
  match c with
  | Text hlp => scan_chunk hlp
  | Garbled => None
  end.

(** The quadruples a sequence of reads yields, in order. *)
Definition yields (ser : port) : list voltages :=
  flat_map (fun c => match converts c with Some v => [v] | None => [] end) ser.

(** ** Vocabulary for the traces of the logger loop *)

Definition channel_eqb (c c' : channel) : bool :=
  match c, c' with
  | Room, Room | Cryo, Cryo | Rough, Rough | Temp, Temp => true
  | _, _ => false
  end.

(** The rotation state at each point of the loop: no file is open before
    the [with] statement is entered, the four files of [current_date] are
    open inside it. *)
Definition well_formed (s : RotationState) : Prop :=
  match at_pc s with
  | Outer => files s = []
  | Inner | Retry => files s = files_of (current_date s)
  end.

Definition is_open (name : string) (opened : list string) : bool :=
  existsb (String.eqb name) opened.

(** Replaying a trace against the set of open files: opening a file that
    is open, and closing, writing or flushing one that is not, are faults
    ([None]); otherwise the files open at the end. *)
Fixpoint replay (opened : list string) (evs : list event) : option (list string) :=
  match evs with
  | [] => Some opened
  | Open name :: evs' =>
      if is_open name opened then None else replay (opened ++ [name]) evs'
  | Close name :: evs' =>
      if is_open name opened
      then replay (filter (fun f => negb (String.eqb name f)) opened) evs'
      else None
  | Write name _ :: evs' | Flush name :: evs' =>
      if is_open name opened then replay opened evs' else None
  | Sleep :: evs' => replay opened evs'
  end.

(** Writes and flushes on open files, and sleeps, leave the open files as
    they are. *)
Definition harmless (opened : list string) (e : event) : Prop :=
  match e with
  | Write name _ | Flush name => is_open name opened = true
  | Sleep => True
  | Open _ | Close _ => False
  end.

(** The number of lines a trace writes to the file [name]. *)
Fixpoint lines_written (name : string) (evs : list event) : nat :=
  match evs with
  | [] => O
  | Write f _ :: evs' =>
      if String.eqb f name then S (lines_written name evs') else lines_written name evs'
  | _ :: evs' => lines_written name evs'
  end.

(** ** [readout_275gauge] (lines 25-57)

    The gauge is what it answers to a command: the bytes [ser.read(13)]
    returns within the timeout, at most 13, as a text when they decode. *)
Definition gauge : Type := string -> chunk.

Definition CR_string : string := String CR EmptyString.

Definition readout_275gauge (address : string) (g : gauge) : outcome string :=
  let cmd := ("#" ++ address ++ "RD " ++ CR_string)%string in
  match g cmd with
  | Text recv => Returns (slice (String.substring 0 13 recv) 4 12)
  | Garbled => Raises ValueError   (* UnicodeDecodeError, a ValueError *)
  end.

(* ================================================================== *)
(** * Part II.  Properties                                             *)
(* ================================================================== *)

(** ** Deciding comparisons of reals *)

Lemma Rltb_true (x y : R) : x < y -> Rltb x y = true.
Proof. intros H; unfold Rltb; destruct (Rlt_dec x y); [reflexivity | contradiction]. Qed.

Lemma Rltb_false (x y : R) : ~ x < y -> Rltb x y = false.
Proof. intros H; unfold Rltb; destruct (Rlt_dec x y); [contradiction | reflexivity]. Qed.

Lemma Reqb_true (x y : R) : x = y -> Reqb x y = true.
Proof. intros H; unfold Reqb; destruct (Req_dec_T x y); [reflexivity | contradiction]. Qed.

Lemma Reqb_false (x y : R) : x <> y -> Reqb x y = false.
Proof. intros H; unfold Reqb; destruct (Req_dec_T x y); [contradiction | reflexivity]. Qed.

(** Evaluate the comparisons of a goal whose reals are numerals. *)
Ltac rdecide :=
  repeat first
    [ rewrite Rltb_true by lra
    | rewrite Rltb_false by lra
    | rewrite Reqb_true by lra
    | rewrite Reqb_false by lra ].

(** Split every comparison of reals in the goal and the hypotheses. *)
Ltac rsplit :=
  unfold Rltb, Reqb in *;
  repeat match goal with
  | |- context [Rlt_dec ?x ?y] => destruct (Rlt_dec x y)
  | |- context [Req_dec_T ?x ?y] => destruct (Req_dec_T x y)
  | H : context [Rlt_dec ?x ?y] |- _ => destruct (Rlt_dec x y)
  | H : context [Req_dec_T ?x ?y] |- _ => destruct (Req_dec_T x y)
  end.

Ltac fsolve :=
  repeat (progress (cbn in *; rsplit));
  repeat match goal with H : Fin _ = Fin _ |- _ => injection H as H end;
  try discriminate; try reflexivity; try contradiction; try lra; try (f_equal; lra).

(** ** The order on float64 *)




Lemma fle_refl (a : float64) : isnan a = false -> fle a a = true.
Proof. unfold fle; destruct a; intros; fsolve. Qed.

Lemma fle_trans (a b c : float64) :
  fle a b = true -> fle b c = true -> fle a c = true.
Proof. unfold fle; destruct a, b, c; intros; fsolve. Qed.

Lemma fle_total (a b : float64) :
  isnan a = false -> isnan b = false -> fle a b = false -> fle b a = true.
Proof. unfold fle; destruct a, b; intros; fsolve. Qed.

(** ** Arrays: maximum, minimum, sorting, masks *)

Lemma existsb_isnan_false (l : ndarray) : existsb isnan l = false <-> nonan l.
Proof.
  unfold nonan; induction l as [|a l IH]; cbn.
  - split; [constructor | reflexivity].
  - rewrite orb_false_iff, IH; split.
    + intros [Ha Hl]; constructor; assumption.
    + intros H; inversion H; subst; split; assumption.
Qed.

Lemma fmax_cases (a b : float64) : fmax a b = a \/ fmax a b = b.
Proof. unfold fmax; destruct (isnan a), (isnan b), (flt a b); auto. Qed.

Lemma fmin_cases (a b : float64) : fmin a b = a \/ fmin a b = b.
Proof. unfold fmin; destruct (isnan a), (isnan b), (flt b a); auto. Qed.

Lemma fmax_ge (a b : float64) :
  isnan a = false -> isnan b = false ->
  fle a (fmax a b) = true /\ fle b (fmax a b) = true.
Proof. unfold fmax, fle; destruct a, b; intros; split; fsolve. Qed.

Lemma fmin_le (a b : float64) :
  isnan a = false -> isnan b = false ->
  fle (fmin a b) a = true /\ fle (fmin a b) b = true.
Proof. unfold fmin, fle; destruct a, b; intros; split; fsolve. Qed.




Lemma amax1_ge (l : ndarray) :
  forall a x, nonan (a :: l) -> In x (a :: l) -> fle x (amax1 a l) = true.
Proof.
  induction l as [|b l IH]; intros a x Hn Hx.
  - destruct Hx as [<- | []]; cbn; apply fle_refl; inversion Hn; assumption.
  - inversion Hn as [|? ? Ha Hbl]; subst; inversion Hbl as [|? ? Hb Hl]; subst.
    destruct (fmax_ge a b Ha Hb) as [G1 G2].
    assert (Hm : isnan (fmax a b) = false)
      by (destruct (fmax_cases a b) as [E | E]; rewrite E; assumption).
    assert (Hn' : nonan (fmax a b :: l)) by (constructor; assumption).
    cbn [amax1].
    destruct Hx as [<- | [<- | Hx]].
    + eapply fle_trans; [exact G1 | apply IH; [assumption | left; reflexivity]].
    + eapply fle_trans; [exact G2 | apply IH; [assumption | left; reflexivity]].
    + apply IH; [assumption | right; assumption].
Qed.

Lemma amin1_le (l : ndarray) :
  forall a x, nonan (a :: l) -> In x (a :: l) -> fle (amin1 a l) x = true.
Proof.
  induction l as [|b l IH]; intros a x Hn Hx.
  - destruct Hx as [<- | []]; cbn; apply fle_refl; inversion Hn; assumption.
  - inversion Hn as [|? ? Ha Hbl]; subst; inversion Hbl as [|? ? Hb Hl]; subst.
    destruct (fmin_le a b Ha Hb) as [G1 G2].
    assert (Hm : isnan (fmin a b) = false)
      by (destruct (fmin_cases a b) as [E | E]; rewrite E; assumption).
    assert (Hn' : nonan (fmin a b :: l)) by (constructor; assumption).
    cbn [amin1].
    destruct Hx as [<- | [<- | Hx]].
    + eapply fle_trans; [apply IH; [assumption | left; reflexivity] | exact G1].
    + eapply fle_trans; [apply IH; [assumption | left; reflexivity] | exact G2].
    + apply IH; [assumption | right; assumption].
Qed.

Lemma insert_In (a x : float64) (l : ndarray) : In x (insert a l) <-> x = a \/ In x l.
Proof.
  induction l as [|b l IH]; cbn.
  - intuition auto.
  - destruct (fle a b); cbn; rewrite ?IH; intuition auto.
Qed.

Lemma sort_In (x : float64) (l : ndarray) : In x (sort l) <-> In x l.
Proof.
  induction l as [|a l IH]; cbn; [reflexivity|].
  rewrite insert_In, IH; intuition auto.
Qed.

Lemma insert_length (a : float64) (l : ndarray) :
  List.length (insert a l) = S (List.length l).
Proof.
  induction l as [|b l IH]; cbn; [reflexivity|].
  destruct (fle a b); cbn; [reflexivity | rewrite IH; reflexivity].
Qed.

Lemma sort_length (l : ndarray) : List.length (sort l) = List.length l.
Proof.
  induction l as [|a l IH]; cbn; [reflexivity|].
  rewrite insert_length, IH; reflexivity.
Qed.

Lemma nth_sort_In (l : ndarray) (i : nat) :
  (i < List.length l)%nat -> In (nth i (sort l) NaN) l.
Proof.
  intros H; apply sort_In, nth_In; rewrite sort_length; exact H.
Qed.

(** Boolean-mask indexing with the mask [f(vols)] is filtering by [f]. *)
Lemma mask_index_map (f : float64 -> bool) (l : ndarray) :
  mask_index l (map f l) = filter f l.
Proof.
  induction l as [|a l IH]; cbn; [reflexivity|].
  rewrite IH; reflexivity.
Qed.

Lemma good_datas_filter (vols : ndarray) (m TOL : float64) :
  mask_index vols (lt_scalar (abs_array (sub_scalar vols m)) TOL)
  = filter (within m TOL) vols.
Proof.
  unfold lt_scalar, abs_array, sub_scalar; rewrite !map_map.
  apply mask_index_map.
Qed.

Lemma correct_unfold (a : float64) (l : ndarray) (TOL : float64) :
  correct (a :: l) TOL =
  if fgt (fsub (amax1 a l) (amin1 a l)) TOL
  then Returns (mean (kept (a :: l) TOL))
  else Returns (mean (a :: l)).
Proof.
  unfold correct; cbn [ptp bind]; rewrite good_datas_filter; reflexivity.
Qed.

(** ** The median *)

Lemma half_lt (n : nat) : (0 < n)%nat -> (n / 2 < n)%nat.
Proof. intros H; apply Nat.div_lt; lia. Qed.

(** Without a [nan], the median is an element of the array (odd length) or
    the mean of two of its elements (even length). *)
Lemma median_cases (l : ndarray) :
  l <> [] -> nonan l ->
  (Nat.even (List.length l) = false /\ In (median l) l) \/
  (Nat.even (List.length l) = true /\
   exists a b, In a l /\ In b l /\ median l = mean [a; b]).
Proof.
  intros Hne Hn. unfold median.
  apply existsb_isnan_false in Hn; rewrite Hn.
  assert (Hpos : (0 < List.length l)%nat) by (destruct l; [contradiction | cbn; lia]).
  destruct (Nat.even (List.length l)) eqn:E.
  - right; split; [reflexivity|].
    exists (nth (List.length l / 2 - 1) (sort l) NaN), (nth (List.length l / 2) (sort l) NaN).
    repeat split; apply nth_sort_In.
    + pose proof (half_lt _ Hpos); lia.
    + apply half_lt, Hpos.
  - left; split; [reflexivity|]. apply nth_sort_In, half_lt, Hpos.
Qed.





(** ** What [correct] keeps *)








(** ** Evaluation on concrete arrays *)

Ltac rabs :=
  repeat match goal with
  | |- context [Rabs ?e] =>
      first [ rewrite (Rabs_pos_eq e) by lra | rewrite (Rabs_left1 e) by lra ]
  end.

Ltac feval :=
  repeat (progress (cbn;
                    unfold fle, fgt, feq, flt, fmax, fmin, fdiv, inf_times, within;
                    rabs; rdecide)).

(** The mean of an empty selection is [nan] (0.0 / 0). *)
Lemma mean_nil : mean [] = NaN.
Proof. unfold mean, asum, of_nat; cbn. rdecide. reflexivity. Qed.

Lemma correct_outlier_branch (vols : ndarray) (TOL range : float64) :
  ptp vols = Returns range ->
  fgt range TOL = true ->
  correct vols TOL = Returns (mean (kept vols TOL)).
Proof.
  intros Hp Hg. destruct vols as [|a l]; [discriminate|].
  rewrite correct_unfold. cbn in Hp. injection Hp as Hp. rewrite Hp, Hg.
  reflexivity.
Qed.

(** C2, as the code behaves: when the outlier branch is taken and no
    value is kept, [correct] raises nothing and returns [nan]. *)
Theorem correct_nothing_kept_returns_nan (vols : ndarray) (TOL range : float64) :
  ptp vols = Returns range ->
  fgt range TOL = true ->
  kept vols TOL = [] ->
  correct vols TOL = Returns NaN.
Proof.
  intros Hp Hg Hk.
  rewrite (correct_outlier_branch vols TOL range Hp Hg), Hk, mean_nil.
  reflexivity.
Qed.

(** C2 fails on the code: two readings one volt apart, default tolerance.
    The range 1 exceeds 0.1, the median 0.5 is 0.5 away from both
    readings, nothing is kept, and [correct] returns [nan], not an error. *)
Lemma correct_nothing_kept_counterexample :
  ptp [Fin 0; Fin 1] = Returns (Fin (1 + - 0)) /\
  fgt (Fin (1 + - 0)) TOL_default = true /\
  kept [Fin 0; Fin 1] TOL_default = [] /\
  correct [Fin 0; Fin 1] TOL_default = Returns NaN.
Proof.
  assert (Hp : ptp [Fin 0; Fin 1] = Returns (Fin (1 + - 0))).
  { unfold ptp; feval; reflexivity. }
  assert (Hg : fgt (Fin (1 + - 0)) TOL_default = true).
  { unfold fgt, TOL_default; feval; reflexivity. }
  assert (Hk : kept [Fin 0; Fin 1] TOL_default = []).
  { unfold kept, median, within, mean, asum, of_nat, TOL_default; feval; reflexivity. }
  repeat split; try assumption.
  rewrite (correct_outlier_branch _ _ _ Hp Hg), Hk, mean_nil; reflexivity.
Qed.

(** C2 on an instance. *)
Lemma correct_nothing_kept_returns_nan_witness :
  correct [Fin 0; Fin 1] TOL_default = Returns NaN.
Proof.
  apply (correct_nothing_kept_returns_nan [Fin 0; Fin 1] TOL_default (Fin (1 + - 0))).
  - unfold ptp; feval; reflexivity.
  - unfold fgt, TOL_default; feval; reflexivity.
  - unfold kept, median, within, mean, asum, of_nat, TOL_default; feval; reflexivity.
Defined.

(** ** Arrays of finite values *)

Lemma finite_In (l : ndarray) (v : float64) :
  finite l -> In v l -> exists x, v = Fin x.
Proof.
  unfold finite; rewrite Forall_forall; intros H Hv.
  specialize (H v Hv); destruct v; try discriminate; eauto.
Qed.

Lemma finite_nonan (l : ndarray) : finite l -> nonan l.
Proof.
  unfold finite, nonan; apply Forall_impl; intros v H; destruct v; try discriminate; reflexivity.
Qed.

Lemma fold_fadd_finite (l : ndarray) :
  finite l -> forall r0, exists r, fold_left fadd l (Fin r0) = Fin r.
Proof.
  induction l as [|a l IH]; intros Hf r0; cbn.
  - eauto.
  - inversion Hf as [|? ? Ha Hl]; subst.
    destruct a; try discriminate. cbn. apply IH, Hl.
Qed.

(** The mean of a non-empty array of finite values is finite. *)
Lemma mean_finite (l : ndarray) : l <> [] -> finite l -> exists r, mean l = Fin r.
Proof.
  intros Hne Hf. unfold mean, asum, of_nat.
  destruct (fold_fadd_finite l Hf 0) as [s ->].
  assert (Hn : INR (List.length l) <> 0).
  { apply not_0_INR; destruct l; [contradiction | discriminate]. }
  cbn. rewrite (Reqb_false _ _ Hn). eauto.
Qed.

Lemma finite_filter (f : float64 -> bool) (l : ndarray) : finite l -> finite (filter f l).
Proof.
  unfold finite; rewrite !Forall_forall; intros H v Hv.
  apply filter_In in Hv; apply H, Hv.
Qed.

Lemma odd_not_even (n : nat) : Nat.odd n = true -> Nat.even n = false.
Proof. unfold Nat.odd; destruct (Nat.even n); [discriminate | reflexivity]. Qed.

(** A finite value is within any positive tolerance of itself. *)
Lemma within_self (x : R) (TOL : float64) :
  fgt TOL (Fin 0) = true -> within (Fin x) TOL (Fin x) = true.
Proof.
  unfold fgt, within; intros H. cbn.
  replace (x + - x) with 0 by lra. rewrite Rabs_R0. exact H.
Qed.

(** C10, as the code behaves: for an odd number of finite samples and a
    strictly positive tolerance, the median is one of the samples and is
    kept, so the kept subset is not empty and [correct] returns a finite
    number whichever branch it takes. *)
Theorem correct_odd_finite_keeps_median (vols : ndarray) (TOL : float64) :
  Nat.odd (List.length vols) = true ->
  finite vols ->
  fgt TOL (Fin 0) = true ->
  In (median vols) vols /\
  In (median vols) (kept vols TOL) /\
  kept vols TOL <> [] /\
  exists r, correct vols TOL = Returns (Fin r).
Proof.
  intros Hodd Hf Hpos.
  assert (Hne : vols <> []) by (intros ->; discriminate).
  assert (Hin : In (median vols) vols).
  { destruct (median_cases vols Hne (finite_nonan _ Hf)) as [[_ H] | [E _]]; [exact H|].
    rewrite (odd_not_even _ Hodd) in E; discriminate. }
  assert (Hk : In (median vols) (kept vols TOL)).
  { unfold kept; apply filter_In; split; [exact Hin|].
    destruct (finite_In _ _ Hf Hin) as [x ->]. apply within_self, Hpos. }
  assert (Hkne : kept vols TOL <> []) by (intros E; rewrite E in Hk; exact Hk).
  repeat split; try assumption.
  destruct vols as [|a l]; [contradiction|]. rewrite correct_unfold.
  destruct (fgt (fsub (amax1 a l) (amin1 a l)) TOL).
  - destruct (mean_finite _ Hkne (finite_filter _ _ Hf)) as [r ->]; eauto.
  - destruct (mean_finite _ Hne Hf) as [r ->]; eauto.
Qed.

(** C10 on an instance: four consistent readings and one
    shifted reading. *)
Lemma correct_odd_finite_keeps_median_witness :
  In (median [Fin 1; Fin 1; Fin 9; Fin 1; Fin 1]) [Fin 1; Fin 1; Fin 9; Fin 1; Fin 1] /\
  In (median [Fin 1; Fin 1; Fin 9; Fin 1; Fin 1])
     (kept [Fin 1; Fin 1; Fin 9; Fin 1; Fin 1] TOL_default) /\
  kept [Fin 1; Fin 1; Fin 9; Fin 1; Fin 1] TOL_default <> [] /\
  exists r, correct [Fin 1; Fin 1; Fin 9; Fin 1; Fin 1] TOL_default = Returns (Fin r).
Proof.
  apply (correct_odd_finite_keeps_median [Fin 1; Fin 1; Fin 9; Fin 1; Fin 1] TOL_default).
  - reflexivity.
  - repeat constructor.
  - unfold fgt, TOL_default; feval; reflexivity.
Defined.

(** ** One outlier among consistent readings *)

Ltac rabs_cases :=
  unfold Rabs in *;
  repeat match goal with
  | |- context [Rcase_abs ?x] => destruct (Rcase_abs x)
  | H : context [Rcase_abs ?x] |- _ => destruct (Rcase_abs x)
  end.

Lemma within_true_finite (m TOL v : float64) :
  within m TOL v = true -> isfinite v = true /\ isfinite m = true.
Proof. unfold within; destruct v, m, TOL; cbn; intros H; try discriminate; auto. Qed.

Lemma filter_all (f : float64 -> bool) (l : ndarray) :
  Forall (fun v => f v = true) l -> filter f l = l.
Proof.
  induction 1 as [|a l Ha _ IH]; cbn; [reflexivity|].
  rewrite Ha, IH; reflexivity.
Qed.

(** Without a [nan], a finite median lies between the minimum and the
    maximum of the array. *)
Lemma median_between (a : float64) (l : ndarray) (mr : R) :
  nonan (a :: l) -> median (a :: l) = Fin mr ->
  fle (amin1 a l) (Fin mr) = true /\ fle (Fin mr) (amax1 a l) = true.
Proof.
  intros Hn E.
  assert (Hne : a :: l <> []) by discriminate.
  destruct (median_cases (a :: l) Hne Hn) as [[_ Hin] | [_ (x & y & Hx & Hy & Em)]].
  - rewrite E in Hin; split; [apply amin1_le | apply amax1_ge]; assumption.
  - pose proof (amin1_le l a x Hn Hx) as Lx. pose proof (amin1_le l a y Hn Hy) as Ly.
    pose proof (amax1_ge l a x Hn Hx) as Gx. pose proof (amax1_ge l a y Hn Hy) as Gy.
    rewrite E in Em. unfold mean, asum, of_nat in Em. cbn in Em.
    revert Lx Ly Gx Gy. unfold fle.
    destruct (amin1 a l), (amax1 a l), x, y; intros; split; fsolve.
Qed.

(** C8, as the code behaves: one outlier lying beyond the tolerance from
    the median of the whole sample set, every remaining value within less
    than the tolerance of that median; [correct] takes its outlier
    branch, excludes the outlier and returns the mean of the remaining
    values. *)
Theorem correct_excludes_outlier (l1 l2 : ndarray) (o TOL : float64) :
  l1 ++ l2 <> [] ->
  Forall (fun v => within (median (l1 ++ o :: l2)) TOL v = true) (l1 ++ l2) ->
  fgt (fabs (fsub o (median (l1 ++ o :: l2)))) TOL = true ->
  kept (l1 ++ o :: l2) TOL = l1 ++ l2 /\
  correct (l1 ++ o :: l2) TOL = Returns (mean (l1 ++ l2)).
Proof.
  intros Hne Hrest Hout.
  set (vols := l1 ++ o :: l2) in *. set (m := median vols) in *.
  (* the median is finite, and so are the remaining values *)
  assert (Hm : exists mr, m = Fin mr).
  { destruct (l1 ++ l2) as [|v r] eqn:E; [contradiction|].
    inversion Hrest as [|? ? Hv _]; subst.
    apply within_true_finite in Hv; destruct Hv as [_ Hv].
    destruct m; try discriminate; eauto. }
  destruct Hm as [mr Em].
  assert (Hno : isnan o = false).
  { rewrite Em in Hout. destruct o, TOL; try discriminate; reflexivity. }
  assert (Hnan : nonan vols).
  { unfold nonan, vols. apply Forall_app in Hrest; destruct Hrest as [H1 H2].
    apply Forall_app; split; [|constructor; [exact Hno|]].
    - eapply Forall_impl; [|exact H1]. cbn; intros v Hv.
      apply within_true_finite in Hv; destruct Hv as [Hv _]; destruct v; try discriminate; reflexivity.
    - eapply Forall_impl; [|exact H2]. cbn; intros v Hv.
      apply within_true_finite in Hv; destruct Hv as [Hv _]; destruct v; try discriminate; reflexivity. }
  (* the kept subset *)
  assert (Hk : kept vols TOL = l1 ++ l2).
  { unfold kept; fold m; unfold vols. apply Forall_app in Hrest; destruct Hrest as [H1 H2].
    rewrite filter_app; cbn [filter].
    replace (within m TOL o) with false.
    - rewrite (filter_all _ _ H1), (filter_all _ _ H2); reflexivity.
    - symmetry. unfold within. revert Hout; unfold fgt.
      destruct (fabs (fsub o m)), TOL; intros; fsolve. }
  split; [exact Hk|].
  (* the outlier branch is taken *)
  destruct vols as [|a l] eqn:Ev.
  { destruct l1; discriminate. }
  assert (Hin : In o (a :: l)).
  { rewrite <- Ev; apply in_or_app; right; left; reflexivity. }
  pose proof (amax1_ge l a o Hnan Hin) as Go.
  pose proof (amin1_le l a o Hnan Hin) as Lo.
  destruct (median_between a l mr Hnan Em) as [Lm Gm].
  rewrite (correct_outlier_branch (a :: l) TOL (fsub (amax1 a l) (amin1 a l)) eq_refl).
  - rewrite Hk; reflexivity.
  - destruct (l1 ++ l2) as [|v r] eqn:E; [contradiction|].
    inversion Hrest as [|? ? Hv _]; subst. clear - Go Lo Lm Gm Hout Hv Em.
    unfold m in *. rewrite Em in *. revert Go Lo Lm Gm Hout Hv.
    unfold fgt, fle, within.
    destruct (amax1 a l), (amin1 a l), o, TOL, v; cbn; intros;
      try discriminate; rsplit; try discriminate; try reflexivity;
      rabs_cases; try lra; try contradiction.
Qed.

(** C8 on an instance: the shifted reading 9 among four
    readings of 1. *)
Lemma correct_excludes_outlier_witness :
  kept ([Fin 1; Fin 1] ++ Fin 9 :: [Fin 1; Fin 1]) TOL_default
  = [Fin 1; Fin 1] ++ [Fin 1; Fin 1] /\
  correct ([Fin 1; Fin 1] ++ Fin 9 :: [Fin 1; Fin 1]) TOL_default
  = Returns (mean ([Fin 1; Fin 1] ++ [Fin 1; Fin 1])).
Proof.
  apply (correct_excludes_outlier [Fin 1; Fin 1] [Fin 1; Fin 1] (Fin 9) TOL_default).
  - discriminate.
  - repeat constructor; unfold median, TOL_default; feval; reflexivity.
  - unfold median, TOL_default; feval; reflexivity.
Defined.

(** C8 fails on the code: the readings 0, 0, 0.08, 0.08 have median
    0.04, and 0.15 lies 0.11 from it, beyond the tolerance 0.1.  The
    median of the five readings is 0.08, all five lie within 0.1 of it,
    the outlier is kept and [correct] returns the mean of the five, 0.062,
    where the mean of the remaining four is 0.04. *)
Lemma correct_keeps_outlier_counterexample :
  fgt (fabs (fsub (Fin (15 / 100))
                  (median [Fin 0; Fin 0; Fin (8 / 100); Fin (8 / 100)])))
      TOL_default = true /\
  kept [Fin 0; Fin 0; Fin (8 / 100); Fin (8 / 100); Fin (15 / 100)] TOL_default
  = [Fin 0; Fin 0; Fin (8 / 100); Fin (8 / 100); Fin (15 / 100)] /\
  correct [Fin 0; Fin 0; Fin (8 / 100); Fin (8 / 100); Fin (15 / 100)] TOL_default
  = Returns (Fin (62 / 1000)) /\
  mean [Fin 0; Fin 0; Fin (8 / 100); Fin (8 / 100)] = Fin (40 / 1000).
Proof.
  assert (Hk : kept [Fin 0; Fin 0; Fin (8 / 100); Fin (8 / 100); Fin (15 / 100)] TOL_default
               = [Fin 0; Fin 0; Fin (8 / 100); Fin (8 / 100); Fin (15 / 100)]).
  { unfold kept, median, TOL_default; feval; reflexivity. }
  repeat split.
  - unfold median, mean, asum, of_nat, TOL_default; feval; reflexivity.
  - exact Hk.
  - rewrite (correct_outlier_branch _ TOL_default
               (fsub (Fin (15 / 100)) (Fin 0))).
    + rewrite Hk. unfold mean, asum, of_nat; feval. do 2 f_equal; lra.
    + unfold ptp; feval; reflexivity.
    + unfold TOL_default; feval; reflexivity.
  - unfold mean, asum, of_nat; feval. f_equal; lra.
Qed.

(** ** [convert] *)





(** On a positive resistance whose Steinhart-Hart polynomial does not
    vanish, [T] is the real formula. *)
Lemma T_finite (res : R) :
  0 < res -> sh_poly (ln (res / 100000)) <> 0 ->
  T (Fin res) = Fin (steinhart_hart_R res).
Proof.
  intros Hpos Hpoly. unfold T, A, B, C, D, R25.
  assert (Hq : 0 < res / 100000) by (apply Rdiv_lt_0_compat; lra).
  cbn [fdiv np_log]. rewrite (Reqb_false 100000 0) by lra.
  cbn [np_log]. rewrite (Rltb_true _ _ Hq).
  set (x := ln (res / 100000)) in *.
  cbn [fpow fmul fadd fdiv fsub fneg].
  assert (E : 3354016 / 1000000000 + 2460382 / 10000000000 * x
              + 3405377 / 1000000000000 * (x * x)
              + 1034240 / 10000000000000 * (x * (x * x)) = sh_poly x)
    by (unfold sh_poly; ring).
  rewrite E, (Reqb_false _ _ Hpoly). unfold steinhart_hart_R. fold x.
  reflexivity.
Qed.


Lemma resistance_finite (v : R) :
  v <> 33 / 10 ->
  fmul (fdiv (Fin v) (fsub V_s (Fin v))) R0_ICR = Fin (resistance_R v).
Proof.
  intros H. unfold V_s, R0_ICR, resistance_R. cbn.
  rewrite Reqb_false by lra. cbn. reflexivity.
Qed.


Lemma resistance_R_half : resistance_R (165 / 100) = 100000.
Proof. unfold resistance_R. field. Qed.

Lemma sh_poly_0 : sh_poly 0 = 3354016 / 1000000000.
Proof. unfold sh_poly. ring. Qed.

Lemma sh_poly_at_R25 : sh_poly (ln (100000 / 100000)) <> 0.
Proof.
  replace (100000 / 100000) with 1 by field.
  rewrite ln_1, sh_poly_0. lra.
Qed.


(** ** The two reference points of [convert] *)

Lemma sqrt_10_bounds : 3162 / 1000 < sqrt 10 < 3163 / 1000.
Proof.
  split.
  - rewrite <- (sqrt_square (3162 / 1000)) by lra. apply sqrt_lt_1; lra.
  - rewrite <- (sqrt_square (3163 / 1000)) by lra. apply sqrt_lt_1; lra.
Qed.

Lemma T_at_R25 : T R25 = Fin (1 / (3354016 / 1000000000) - 27315 / 100).
Proof.
  unfold R25. rewrite (T_finite 100000); [|lra|exact sh_poly_at_R25].
  unfold steinhart_hart_R. replace (100000 / 100000) with 1 by field.
  rewrite ln_1, sh_poly_0. reflexivity.
Qed.

Lemma T_C_at_R25_bounds :
  24999 / 1000 < 1 / (3354016 / 1000000000) - 27315 / 100 < 25001 / 1000.
Proof. lra. Qed.

(** C7, as the code behaves: when the derived resistance of the ICR
    channel equals [R25] the temperature is [1/A - 273.15], about +25.0
    degrees Celsius; and for [v_room = 3.5] the pressure is [10^0.5],
    about 3.162. *)
Theorem convert_reference_points (v_cryo v_ICR v_ICH : float64) :
  fmul (fdiv v_ICR (fsub V_s v_ICR)) R0_ICR = R25 ->
  exists p t p_cryo T_ICH,
    convert (Fin (35 / 10)) v_cryo v_ICR v_ICH
    = Returns (Fin p, p_cryo, Fin t, T_ICH) /\
    p = Rpower 10 (1 / 2) /\ Rabs (p - 3162 / 1000) < 1 / 1000 /\
    t = 1 / (3354016 / 1000000000) - 27315 / 100 /\
    Rabs (t - 25) < 1 / 1000.
Proof.
  intros HR.
  exists (Rpower 10 (1 / 2)), (1 / (3354016 / 1000000000) - 27315 / 100).
  eexists; eexists. split; [|repeat split].
  - unfold convert. rewrite HR, T_at_R25. cbn.
    replace (35 / 10 * 3 + - (10)) with (1 / 2) by lra. reflexivity.
  - replace (1 / 2) with (/ 2) by lra. rewrite Rpower_sqrt by lra.
    pose proof sqrt_10_bounds. apply Rabs_def1; lra.
  - pose proof T_C_at_R25_bounds. apply Rabs_def1; lra.
Qed.

Lemma resistance_at_165 :
  fmul (fdiv (Fin (165 / 100)) (fsub V_s (Fin (165 / 100)))) R0_ICR = R25.
Proof.
  rewrite resistance_finite by lra. rewrite resistance_R_half. reflexivity.
Qed.

(** C7 on an instance: [v_ICR = 1.65], half the supply. *)
Lemma convert_reference_points_witness :
  exists p t p_cryo T_ICH,
    convert (Fin (35 / 10)) (Fin 3) (Fin (165 / 100)) (Fin 1)
    = Returns (Fin p, p_cryo, Fin t, T_ICH) /\
    p = Rpower 10 (1 / 2) /\ Rabs (p - 3162 / 1000) < 1 / 1000 /\
    t = 1 / (3354016 / 1000000000) - 27315 / 100 /\
    Rabs (t - 25) < 1 / 1000.
Proof.
  apply (convert_reference_points (Fin 3) (Fin (165 / 100)) (Fin 1)).
  exact resistance_at_165.
Defined.

(** C7 fails on the code in its sign: at [v_ICR = 1.65] the derived
    resistance is [R25] and the temperature returned is 50 degrees away
    from -25.0. *)
Lemma convert_reference_temperature_counterexample :
  fmul (fdiv (Fin (165 / 100)) (fsub V_s (Fin (165 / 100)))) R0_ICR = R25 /\
  exists p p_cryo t T_ICH,
    convert (Fin (35 / 10)) (Fin 3) (Fin (165 / 100)) (Fin 1)
    = Returns (p, p_cryo, Fin t, T_ICH) /\
    49 < Rabs (t - (- 25)).
Proof.
  split; [exact resistance_at_165|].
  eexists; eexists; exists (1 / (3354016 / 1000000000) - 27315 / 100); eexists.
  split.
  - unfold convert. rewrite resistance_at_165, T_at_R25. reflexivity.
  - pose proof T_C_at_R25_bounds. rewrite Rabs_pos_eq; lra.
Qed.

(** ** [convert] raises nothing *)






(** ** Frame extraction *)

Lemma get_nth_error (s : string) :
  forall i, String.get i s = nth_error (String.list_ascii_of_string s) i.
Proof.
  induction s as [|c s IH]; intros [|i]; cbn; try reflexivity. apply IH.
Qed.

Lemma skipn_cons_nth {X : Type} (l : list X) :
  forall k c rest, skipn k l = c :: rest ->
                   nth_error l k = Some c /\ skipn (S k) l = rest.
Proof.
  induction l as [|a l IH]; intros [|k] c rest H; cbn in *; try discriminate.
  - injection H as -> ->; split; reflexivity.
  - destruct (IH k c rest H) as [H1 H2]; split; assumption.
Qed.

Lemma nth_skipn_cons {X : Type} (l : list X) :
  forall k c, nth_error l k = Some c -> skipn k l = c :: skipn (S k) l.
Proof.
  induction l as [|a l IH]; intros [|k] c H; cbn in *; try discriminate.
  - injection H as ->; reflexivity.
  - apply IH, H.
Qed.

Lemma get_some_below (s : string) (n m : nat) :
  (m <= n)%nat -> String.get n s <> None -> String.get m s <> None.
Proof.
  rewrite !get_nth_error. intros Hle Hn Hm.
  apply nth_error_None in Hm. apply Hn, nth_error_None. lia.
Qed.

(** Where no marker starts, the body of the [try] either passes or runs
    off the end of the text; it never converts. *)
Lemma try_frame_no_marker (hlp : string) (i : nat) (c : ascii) :
  String.get i hlp = Some c -> marker_at hlp i = false ->
  try_frame hlp i c = Returns None \/ try_frame hlp i c = Raises IndexError.
Proof.
  intros Hc Hm. unfold try_frame, marker_at, index in *. rewrite Hc in Hm.
  destruct (Ascii.eqb c LF); [|left; reflexivity].
  destruct (String.get (i + 1) hlp) as [d|]; cbn in *; [|right; reflexivity].
  rewrite Hm. left; reflexivity.
Qed.

Lemma try_frame_before_marker (hlp : string) (i : nat) (c : ascii) :
  String.get i hlp = Some c -> marker_at hlp i = false ->
  String.get (i + 1) hlp <> None ->
  try_frame hlp i c = Returns None.
Proof.
  intros Hc Hm Hn. unfold try_frame, marker_at, index in *. rewrite Hc in Hm.
  destruct (Ascii.eqb c LF); [|reflexivity].
  destruct (String.get (i + 1) hlp) as [d|]; cbn in *; [|contradiction].
  rewrite Hm. reflexivity.
Qed.

(** At a marker the body of the [try] parses the four fields. *)
Lemma try_frame_marker (hlp : string) (i : nat) (c : ascii) :
  String.get i hlp = Some c -> marker_at hlp i = true ->
  try_frame hlp i c = (v <- parse_fields hlp i ;; Returns (Some v)).
Proof.
  intros Hc Hm. unfold try_frame, marker_at, index, parse_fields in *. rewrite Hc in Hm.
  destruct (String.get (i + 1) hlp) as [d|]; [|discriminate].
  apply andb_true_iff in Hm; destruct Hm as [H1 H2]. rewrite H1. cbn. rewrite H2.
  destruct (py_float (slice hlp (i + 2) (i + 6))); [|reflexivity]; cbn.
  destruct (py_float (slice hlp (i + 9) (i + 13))); [|reflexivity]; cbn.
  destruct (py_float (slice hlp (i + 16) (i + 20))); [|reflexivity]; cbn.
  destruct (py_float (slice hlp (i + 23) (i + 27))); reflexivity.
Qed.

Lemma scan_first_marker (hlp : string) (i : nat) :
  first_marker hlp i ->
  forall d k, (k + d = i)%nat ->
    scan hlp k (skipn k (String.list_ascii_of_string hlp))
    = frame_result (parse_fields hlp i).
Proof.
  intros [Hm Hbefore].
  assert (Hi : String.get i hlp <> None /\ String.get (i + 1) hlp <> None).
  { unfold marker_at in Hm.
    destruct (String.get i hlp); [|discriminate].
    destruct (String.get (i + 1) hlp); [|discriminate]. split; discriminate. }
  destruct Hi as [Hi Hi1].
  induction d as [|d IH]; intros k Hk.
  - replace k with i by lia.
    destruct (String.get i hlp) as [c|] eqn:Hc; [|contradiction].
    rewrite (nth_skipn_cons _ i c) by (rewrite <- get_nth_error; exact Hc).
    cbn [scan]. rewrite (try_frame_marker hlp i c Hc Hm).
    destruct (parse_fields hlp i); reflexivity.
  - assert (Hg : String.get k hlp <> None) by (apply (get_some_below hlp i); [lia | exact Hi]).
    destruct (String.get k hlp) as [c|] eqn:Hc; [|contradiction].
    rewrite (nth_skipn_cons _ k c) by (rewrite <- get_nth_error; exact Hc).
    cbn [scan]. rewrite (try_frame_before_marker hlp k c Hc).
    + apply IH; lia.
    + apply Hbefore; lia.
    + apply (get_some_below hlp (i + 1)); [lia | exact Hi1].
Qed.

(** The first marker decides the chunk: its four fields are parsed, and
    the chunk converts exactly when the four parse. *)
Lemma scan_chunk_first_marker (hlp : string) (i : nat) :
  first_marker hlp i -> scan_chunk hlp = frame_result (parse_fields hlp i).
Proof.
  intros H. unfold scan_chunk.
  exact (scan_first_marker hlp i H i 0%nat eq_refl).
Qed.

Lemma scan_no_marker (hlp : string) :
  (forall j, marker_at hlp j = false) ->
  forall rest k, skipn k (String.list_ascii_of_string hlp) = rest ->
                 scan hlp k rest = None.
Proof.
  intros Hno. induction rest as [|c rest IH]; intros k Hk; [reflexivity|].
  apply skipn_cons_nth in Hk; destruct Hk as [Hc Hrest].
  rewrite <- get_nth_error in Hc. cbn [scan].
  destruct (try_frame_no_marker hlp k c Hc (Hno k)) as [-> | ->]; [|reflexivity].
  apply IH, Hrest.
Qed.

(** A text without a marker converts nothing. *)
Lemma scan_chunk_no_marker (hlp : string) :
  (forall j, marker_at hlp j = false) -> scan_chunk hlp = None.
Proof.
  intros H. unfold scan_chunk. apply (scan_no_marker hlp H _ 0%nat). reflexivity.
Qed.

Lemma substring_past_end (s : string) :
  forall a n, (String.length s <= a)%nat -> String.substring a n s = EmptyString.
Proof.
  induction s as [|c s IH]; intros [|a] n H; cbn in *; try reflexivity; try lia.
  - destruct n; reflexivity.
  - apply IH; lia.
Qed.

Lemma py_float_empty : py_float EmptyString = Raises ValueError.
Proof. reflexivity. Qed.

(** A text that ends before the last field begins yields no frame. *)
Lemma parse_fields_too_short (hlp : string) (i : nat) :
  (String.length hlp <= i + 23)%nat -> frame_result (parse_fields hlp i) = None.
Proof.
  intros H. unfold parse_fields.
  assert (E : slice hlp (i + 23) (i + 27) = EmptyString)
    by (apply substring_past_end; exact H).
  rewrite E, py_float_empty.
  destruct (py_float (slice hlp (i + 2) (i + 6))); [|reflexivity]; cbn.
  destruct (py_float (slice hlp (i + 9) (i + 13))); [|reflexivity]; cbn.
  destruct (py_float (slice hlp (i + 16) (i + 20))); reflexivity.
Qed.

Lemma parse_fields_returns (hlp : string) (i : nat) (a b c d : float64) :
  parse_fields hlp i = Returns (a, b, c, d) ->
  py_float (slice hlp (i + 2) (i + 6)) = Returns a /\
  py_float (slice hlp (i + 9) (i + 13)) = Returns b /\
  py_float (slice hlp (i + 16) (i + 20)) = Returns c /\
  py_float (slice hlp (i + 23) (i + 27)) = Returns d.
Proof.
  unfold parse_fields.
  destruct (py_float (slice hlp (i + 2) (i + 6))); [|discriminate]; cbn.
  destruct (py_float (slice hlp (i + 9) (i + 13))); [|discriminate]; cbn.
  destruct (py_float (slice hlp (i + 16) (i + 20))); [|discriminate]; cbn.
  destruct (py_float (slice hlp (i + 23) (i + 27))); [|discriminate]; cbn.
  intros H; injection H as -> -> -> ->. repeat split; reflexivity.
Qed.

(** One turn of [while not converted]: [read_series], then the scan of
    the text it returns. *)
Lemma get_voltages_read_series (ser : port) :
  get_voltages ser =
  match read_series ser with
  | None => None
  | Some (hlp, ser') =>
      match scan_chunk hlp with
      | Some v => Some (v, ser')
      | None => get_voltages ser'
      end
  end.
Proof.
  induction ser as [|[hlp|] ser IH]; cbn [get_voltages read_series].
  - reflexivity.
  - reflexivity.
  - exact IH.
Qed.

(** C5, as the code behaves: the first newline-then-4 marker of a decoded
    text decides the chunk.  The four fields are parsed from the ranges
    +2..+6, +9..+13, +16..+20 and +23..+27; when the four parse,
    [get_voltages] returns them and keeps the rest of the port; when one
    fails to parse the chunk is abandoned and extraction restarts on the
    next read; voltages are returned only when the four fields parsed; and
    a text that ends before the last field begins is abandoned. *)
Theorem get_voltages_first_marker (hlp : string) (i : nat) (ser : port) :
  first_marker hlp i ->
  (forall v, parse_fields hlp i = Returns v ->
             get_voltages (Text hlp :: ser) = Some (v, ser)) /\
  (forall e, parse_fields hlp i = Raises e ->
             get_voltages (Text hlp :: ser) = get_voltages ser) /\
  (forall a b c d, scan_chunk hlp = Some (a, b, c, d) ->
     py_float (slice hlp (i + 2) (i + 6)) = Returns a /\
     py_float (slice hlp (i + 9) (i + 13)) = Returns b /\
     py_float (slice hlp (i + 16) (i + 20)) = Returns c /\
     py_float (slice hlp (i + 23) (i + 27)) = Returns d) /\
  ((String.length hlp <= i + 23)%nat ->
   get_voltages (Text hlp :: ser) = get_voltages ser).
Proof.
  intros Hm. pose proof (scan_chunk_first_marker hlp i Hm) as E.
  repeat split.
  - intros v Hv. cbn [get_voltages]. rewrite E, Hv. reflexivity.
  - intros e He. cbn [get_voltages]. rewrite E, He. reflexivity.
  - rewrite E in H. destruct (parse_fields hlp i) as [v|] eqn:P; [|discriminate].
    injection H as ->. apply (parse_fields_returns hlp i a b c d P).
  - rewrite E in H. destruct (parse_fields hlp i) as [v|] eqn:P; [|discriminate].
    injection H as ->. apply (parse_fields_returns hlp i a b c d P).
  - rewrite E in H. destruct (parse_fields hlp i) as [v|] eqn:P; [|discriminate].
    injection H as ->. apply (parse_fields_returns hlp i a b c d P).
  - rewrite E in H. destruct (parse_fields hlp i) as [v|] eqn:P; [|discriminate].
    injection H as ->. apply (parse_fields_returns hlp i a b c d P).
  - intros Hs. cbn [get_voltages]. rewrite E, (parse_fields_too_short hlp i Hs).
    reflexivity.
Qed.

(** ** Extraction on the example texts *)

(** Run [parse_float] on the closed strings of the goal. *)
Ltac run_parser :=
  unfold py_float;
  repeat match goal with
  | |- context [parse_float ?s] =>
      let v := eval vm_compute in (parse_float s) in
      change (parse_float s) with v; cbv iota beta
  end.

(** Equality of returned tuples of finite values, component by component. *)
Ltac fin_eq :=
  repeat match goal with
  | |- Returns _ = Returns _ => apply f_equal
  | |- Some _ = Some _ => apply f_equal
  | |- (_, _) = (_, _) => apply f_equal2
  | |- Fin _ = Fin _ => apply f_equal; lra
  end; try reflexivity.

Lemma first_marker_0 (hlp : string) : marker_at hlp 0 = true -> first_marker hlp 0.
Proof. intros H; split; [exact H | intros j Hj; lia]. Qed.

Lemma parse_fields_frame_ok :
  parse_fields frame_ok 0
  = Returns (Fin (123 / 100), Fin (456 / 100), Fin (789 / 100), Fin (12 / 100)).
Proof.
  unfold parse_fields. run_parser. cbn.
  change (Pos.to_nat 2) with 2%nat; change (Pos.to_nat 1) with 1%nat; cbn [pow].
  fin_eq.
Qed.

Lemma parse_fields_frame_short :
  parse_fields frame_short 0
  = Returns (Fin (123 / 100), Fin (456 / 100), Fin (789 / 100), Fin (1 / 10)).
Proof.
  unfold parse_fields. run_parser. cbn.
  change (Pos.to_nat 2) with 2%nat; change (Pos.to_nat 1) with 1%nat; cbn [pow].
  fin_eq.
Qed.

Lemma parse_fields_frame_quoted : parse_fields frame_quoted 0 = Raises ValueError.
Proof. unfold parse_fields. run_parser. reflexivity. Qed.

Lemma marker_at_frame_none : forall j, marker_at frame_none j = false.
Proof.
  intros j. do 21 (destruct j as [|j]; [reflexivity|]).
  unfold marker_at. rewrite !get_nth_error.
  assert (H : nth_error (String.list_ascii_of_string frame_none) (S (S (S (S (S (S (S (S (S (S (S (S (S (S (S (S (S (S (S (S (S j))))))))))))))))))))) = None).
  { apply nth_error_None. cbn. lia. }
  rewrite H. reflexivity.
Qed.

(** C5 on an instance: a whole frame at the start of the
    text. *)
Lemma get_voltages_first_marker_witness :
  (forall v, parse_fields frame_ok 0 = Returns v ->
             get_voltages (Text frame_ok :: []) = Some (v, [])) /\
  (forall e, parse_fields frame_ok 0 = Raises e ->
             get_voltages (Text frame_ok :: []) = get_voltages []) /\
  (forall a b c d, scan_chunk frame_ok = Some (a, b, c, d) ->
     py_float (slice frame_ok (0 + 2) (0 + 6)) = Returns a /\
     py_float (slice frame_ok (0 + 9) (0 + 13)) = Returns b /\
     py_float (slice frame_ok (0 + 16) (0 + 20)) = Returns c /\
     py_float (slice frame_ok (0 + 23) (0 + 27)) = Returns d) /\
  ((String.length frame_ok <= 0 + 23)%nat ->
   get_voltages (Text frame_ok :: []) = get_voltages []).
Proof.
  apply (get_voltages_first_marker frame_ok 0 []).
  apply first_marker_0. reflexivity.
Defined.

(** C5 fails on the code for a text too short for the offsets: the chunk
    ends one character inside the ICH field (26 characters where the
    offsets need 27), the slice is cut to [0.1], which parses, and the
    voltages are returned instead of the chunk being abandoned. *)
Lemma get_voltages_truncated_counterexample :
  first_marker frame_short 0 /\
  String.length frame_short = 26%nat /\
  slice frame_short (0 + 23) (0 + 27) = "0.1"%string /\
  get_voltages [Text frame_short]
  = Some ((Fin (123 / 100), Fin (456 / 100), Fin (789 / 100), Fin (1 / 10)), []).
Proof.
  assert (Hm : first_marker frame_short 0) by (apply first_marker_0; reflexivity).
  repeat split; try reflexivity; try (apply Hm).
  cbn [get_voltages].
  rewrite (scan_chunk_first_marker frame_short 0 Hm), parse_fields_frame_short.
  reflexivity.
Qed.

(** C6, as the code behaves: on a buffer whose four readings sit at the
    stated offsets (here newline, [41.23], and three more readings each 7
    characters further) extraction succeeds and returns the four parsed
    floats; on a buffer with no newline-then-4 marker no value is
    returned and extraction goes on with the next read. *)
Theorem get_voltages_frame_or_next_read :
  (forall ser,
     get_voltages (Text frame_ok :: ser)
     = Some ((Fin (123 / 100), Fin (456 / 100), Fin (789 / 100), Fin (12 / 100)), ser)) /\
  (forall hlp ser,
     (forall j, marker_at hlp j = false) ->
     scan_chunk hlp = None /\
     get_voltages (Text hlp :: ser) = get_voltages ser).
Proof.
  split.
  - intros ser. cbn [get_voltages].
    rewrite (scan_chunk_first_marker frame_ok 0 (first_marker_0 frame_ok eq_refl)).
    rewrite parse_fields_frame_ok. reflexivity.
  - intros hlp ser Hno. pose proof (scan_chunk_no_marker hlp Hno) as E.
    split; [exact E|]. cbn [get_voltages]. rewrite E. reflexivity.
Qed.

(** C6 on an instance: a text without a marker, then a whole
    frame. *)
Lemma get_voltages_frame_or_next_read_witness :
  get_voltages [Text frame_none; Text frame_ok]
  = Some ((Fin (123 / 100), Fin (456 / 100), Fin (789 / 100), Fin (12 / 100)), []).
Proof.
  destruct (proj2 get_voltages_frame_or_next_read frame_none [Text frame_ok]
              marker_at_frame_none) as [_ E].
  rewrite E. exact (proj1 get_voltages_frame_or_next_read []).
Defined.

(** C6 fails on the code for the quoted buffer: its fields are 5
    characters apart, so the cryo range +9..+13 holds [7 89] and the ICH
    range +23..+27 lies past the end of its 20 characters; [float] rejects
    both, no value is returned, and the voltages come from the next
    read. *)
Lemma get_voltages_quoted_buffer_counterexample :
  first_marker frame_quoted 0 /\
  slice frame_quoted (0 + 9) (0 + 13) = "7 89"%string /\
  py_float "7 89" = Raises ValueError /\
  slice frame_quoted (0 + 23) (0 + 27) = EmptyString /\
  scan_chunk frame_quoted = None /\
  get_voltages [Text frame_quoted] = None /\
  get_voltages [Text frame_quoted; Text frame_ok]
  = Some ((Fin (123 / 100), Fin (456 / 100), Fin (789 / 100), Fin (12 / 100)), []).
Proof.
  assert (Hm : first_marker frame_quoted 0) by (apply first_marker_0; reflexivity).
  assert (E : scan_chunk frame_quoted = None).
  { rewrite (scan_chunk_first_marker frame_quoted 0 Hm), parse_fields_frame_quoted.
    reflexivity. }
  repeat split; try (apply Hm); try exact E;
    cbn [get_voltages]; rewrite ?E; try reflexivity.
  rewrite (scan_chunk_first_marker frame_ok 0 (first_marker_0 frame_ok eq_refl)).
  rewrite parse_fields_frame_ok. reflexivity.
Qed.

(** ** The names of the log files *)

Lemma list_ascii_append (a b : string) :
  String.list_ascii_of_string (a ++ b)
  = String.list_ascii_of_string a ++ String.list_ascii_of_string b.
Proof. induction a as [|c a IH]; cbn; [reflexivity | rewrite IH; reflexivity]. Qed.

Lemma list_ascii_inj (a b : string) :
  String.list_ascii_of_string a = String.list_ascii_of_string b -> a = b.
Proof.
  intros H. rewrite <- (String.string_of_list_ascii_of_string a),
              <- (String.string_of_list_ascii_of_string b), H. reflexivity.
Qed.

(** A name determines its channel and its date. *)
Lemma log_name_inj (c c' : channel) (d d' : string) :
  log_name c d = log_name c' d' -> c = c' /\ d = d'.
Proof.
  unfold log_name. intros H.
  apply (f_equal String.list_ascii_of_string) in H.
  rewrite !list_ascii_append in H.
  destruct c, c'; cbn in H; try discriminate; split; try reflexivity;
    repeat (injection H as H); apply app_inv_tail in H; apply list_ascii_inj, H.
Qed.

Lemma named_with_date (c : channel) (d d' : string) :
  named_with (log_name c d) d' -> d = d'.
Proof. intros [c' H]. apply log_name_inj in H. apply H. Qed.

(** ** The logger loop *)

Lemma In_firstn {X : Type} (n : nat) (l : list X) (x : X) :
  In x (firstn n l) -> In x l.
Proof.
  intros H. rewrite <- (firstn_skipn n l). apply in_or_app. left; exact H.
Qed.

Lemma body_events_writes (date : string) (text : log_text) (name line : string) :
  In (Write name line) (body_events (files_of date) text) ->
  exists c, name = log_name c date.
Proof.
  cbn. intros H.
  repeat (destruct H as [H | H]; [try discriminate; injection H as <- _; eauto|]).
  contradiction.
Qed.

(** One step keeps the state coherent, introduces no date that is not a
    later reading of the clock, and writes only to files named with
    [current_date]. *)
Lemma step_coherent (s s' : RotationState) (w w' : world) (ev : list event) :
  coherent s -> step s w = Some (s', ev, w') ->
  coherent s' /\
  (forall date, In date (current_date s' :: clock w') ->
                In date (current_date s :: clock w)) /\
  (forall name line, In (Write name line) ev ->
                     exists c, name = log_name c (current_date s)).
Proof.
  unfold coherent, step. intros Hc Hs.
  destruct s as [cd fs p]; cbn in *. destruct p.
  - injection Hs as <- <- <-. cbn. repeat split; try tauto.
    intros name line H. repeat (destruct H as [H | H]; [discriminate|]). contradiction.
  - destruct (clock w) as [|date cl] eqn:Ecl; [discriminate|].
    destruct (String.eqb date cd) eqn:Ed; injection Hs as <- <- <-; cbn.
    + repeat split; try assumption; try (intros; contradiction).
      intros x [<- | Hx]; [left; reflexivity | right; right; exact Hx].
    + repeat split.
      * intros x Hx; right; exact Hx.
      * subst fs. cbn. intros name line H.
        repeat (destruct H as [H | H]; [discriminate|]). contradiction.
  - destruct (attempts w) as [|[|text k] att] eqn:Ea; [discriminate| |];
      injection Hs as <- <- <-; cbn.
    + repeat split; try assumption; try tauto.
    + repeat split.
      * match goal with |- context [if ?b then Inner else Retry] => destruct b end;
          exact Hc.
      * tauto.
      * intros name line H. apply In_firstn in H. subst fs.
        apply (body_events_writes cd text name line H).
Qed.

(** Every write of a run lands in a file named with the date the run
    started with or with a later reading of the clock. *)
Lemma run_writes (n : nat) :
  forall s w, coherent s ->
  forall name line, In (Write name line) (trace n s w) ->
  exists c date, name = log_name c date /\ In date (current_date s :: clock w).
Proof.
  unfold trace. induction n as [|n IH]; intros s w Hc name line H; cbn in H; [contradiction|].
  destruct (step s w) as [[[s' ev] w']|] eqn:Es; [|contradiction].
  destruct (step_coherent s s' w w' ev Hc Es) as (Hc' & Hd & Hw).
  specialize (IH s' w' Hc' name line).
  destruct (run n s' w') as [[s'' ev'] w'']. cbn in *.
  apply in_app_or in H. destruct H as [H | H].
  - destruct (Hw name line H) as [c ->]. exists c, (current_date s).
    split; [reflexivity | left; reflexivity].
  - destruct (IH H) as (c & date & -> & Hin). exists c, date.
    split; [reflexivity | apply Hd, Hin].
Qed.

Lemma coherent_inner (date : string) : coherent (inner_state date).
Proof. reflexivity. Qed.

(** When the clock reads another date at the head of the inner loop, the
    next two steps are one rotation: the four files of the old date are
    closed, [current_date] is updated, the four files of the new date are
    opened, and nothing is written. *)
Lemma run_rotation (d d' : string) (cl : list string) (att : list attempt) :
  d' <> d ->
  run 2 (inner_state d) {| clock := d' :: cl; attempts := att |}
  = (inner_state d',
     map Close (rev (files_of d)) ++ map Open (files_of d'),
     {| clock := cl; attempts := att |}).
Proof.
  intros Hd. apply String.eqb_neq in Hd.
  cbn [run step inner_state at_pc clock current_date files]. rewrite Hd.
  cbn [run step inner_state at_pc clock current_date files tick attempts].
  rewrite app_nil_r. reflexivity.
Qed.

(** While the clock reads [current_date], a complete cycle writes its four
    lines to the four open files, flushes them and sleeps. *)
Lemma run_cycle (d : string) (cl : list string) (att : list attempt) (text : log_text) :
  run 2 (inner_state d) {| clock := d :: cl; attempts := Ran text 9 :: att |}
  = (inner_state d, body_events (files_of d) text,
     {| clock := cl; attempts := att |}).
Proof.
  cbn [run step inner_state at_pc clock current_date files]. rewrite String.eqb_refl.
  cbn [run step inner_state at_pc clock current_date files tick spend attempts].
  cbn. reflexivity.
Qed.

(** Inside [while not written] the clock is not read and the rotation
    state does not change. *)
Lemma step_retry (s s' : RotationState) (w w' : world) (ev : list event) :
  at_pc s = Retry -> step s w = Some (s', ev, w') ->
  current_date s' = current_date s /\ files s' = files s /\ clock w' = clock w.
Proof.
  unfold step. intros -> H.
  destruct (attempts w) as [|[|text k] att]; [discriminate| |];
    injection H as <- <- <-; repeat split.
Qed.

(** C9, as the code behaves: when the date read at the head of the inner
    loop differs from [current_date], one rotation takes place at once,
    before any logging: the four files of the old date are closed,
    [current_date] is updated and the four files of the new date are
    opened.  From then on every write lands in a file named with the new
    date or with a later reading of the clock, so none lands in a file
    named with the old date unless the clock reads that date again; when
    the clock next reads the new date, the four writes of the next cycle
    land in the four new files.  Inside the retry loop the clock is not
    read, so a boundary is only detected at the next iteration. *)
Theorem rotation_at_next_iteration
  (d d' : string) (cl : list string) (att : list attempt) :
  d' <> d ->
  run 2 (inner_state d) {| clock := d' :: cl; attempts := att |}
  = (inner_state d',
     map Close (rev (files_of d)) ++ map Open (files_of d'),
     {| clock := cl; attempts := att |}) /\
  (forall n name line,
     In (Write name line) (trace n (inner_state d') {| clock := cl; attempts := att |}) ->
     exists c date, name = log_name c date /\ In date (d' :: cl)) /\
  (~ In d cl ->
   forall n name line,
     In (Write name line) (trace n (inner_state d') {| clock := cl; attempts := att |}) ->
     ~ named_with name d) /\
  (forall text cl' att',
     cl = d' :: cl' -> att = Ran text 9 :: att' ->
     run 2 (inner_state d') {| clock := cl; attempts := att |}
     = (inner_state d',
        [Write (log_name Room d') (str_room text); Write (log_name Cryo d') (str_cryo text);
         Write (log_name Rough d') (str_rough text); Write (log_name Temp d') (str_temp text);
         Flush (log_name Room d'); Flush (log_name Cryo d');
         Flush (log_name Rough d'); Flush (log_name Temp d'); Sleep],
        {| clock := cl'; attempts := att' |})) /\
  (forall s w s' ev w',
     at_pc s = Retry -> step s w = Some (s', ev, w') ->
     current_date s' = current_date s /\ files s' = files s /\ clock w' = clock w).
Proof.
  intros Hd. split; [exact (run_rotation d d' cl att Hd)|].
  assert (Hw : forall n name line,
             In (Write name line) (trace n (inner_state d') {| clock := cl; attempts := att |}) ->
             exists c date, name = log_name c date /\ In date (d' :: cl)).
  { intros n name line H.
    exact (run_writes n (inner_state d') _ (coherent_inner d') name line H). }
  split; [exact Hw|]. split; [|split].
  - intros Hnot n name line H Hnamed.
    destruct (Hw n name line H) as (c & date & -> & Hin).
    apply named_with_date in Hnamed. subst date.
    destruct Hin as [E | Hin]; [apply Hd; exact E | apply Hnot; exact Hin].
  - intros text cl' att' -> ->. apply run_cycle.
  - intros s w s' ev w'. apply step_retry.
Qed.

(** C9 on an instance: the clock passes from day 1 to day 2
    and stays there; the next cycle completes. *)
Lemma rotation_at_next_iteration_witness :
  run 2 (inner_state day1) {| clock := day2 :: [day2]; attempts := [Ran some_text 9] |}
  = (inner_state day2,
     map Close (rev (files_of day1)) ++ map Open (files_of day2),
     {| clock := [day2]; attempts := [Ran some_text 9] |}) /\
  (forall n name line,
     In (Write name line)
        (trace n (inner_state day2) {| clock := [day2]; attempts := [Ran some_text 9] |}) ->
     ~ named_with name day1).
Proof.
  destruct (rotation_at_next_iteration day1 day2 [day2] [Ran some_text 9])
    as (H1 & _ & H3 & _).
  - discriminate.
  - split; [exact H1|]. apply H3.
    intros [E | []]. discriminate.
Defined.

(** C9 fails on the code when the clock does not stay on the new date:
    it reads day 2, then day 1 again (a clock set back across midnight).
    Two rotations follow one another before anything is logged, and the
    four writes of the next cycle land in the files named with the old
    date, day 1. *)
Lemma rotation_clock_set_back_counterexample :
  day2 <> day1 /\
  run 6 (inner_state day1)
      {| clock := [day2; day1; day1]; attempts := [Ran some_text 9] |}
  = (inner_state day1,
     map Close (rev (files_of day1)) ++ map Open (files_of day2)
     ++ map Close (rev (files_of day2)) ++ map Open (files_of day1)
     ++ [Write (log_name Room day1) (str_room some_text);
         Write (log_name Cryo day1) (str_cryo some_text);
         Write (log_name Rough day1) (str_rough some_text);
         Write (log_name Temp day1) (str_temp some_text);
         Flush (log_name Room day1); Flush (log_name Cryo day1);
         Flush (log_name Rough day1); Flush (log_name Temp day1); Sleep],
     {| clock := []; attempts := [] |}) /\
  named_with (log_name Room day1) day1.
Proof.
  split; [discriminate|]. split; [reflexivity|].
  exists Room. reflexivity.
Qed.

(** ** The default configuration on readings that are not finite *)

Lemma parse_fields_frame_inf :
  parse_fields frame_inf 0
  = Returns (PInf, Fin (456 / 100), Fin (789 / 100), Fin (12 / 100)).
Proof.
  unfold parse_fields. run_parser. cbn.
  change (Pos.to_nat 2) with 2%nat; cbn [pow].
  fin_eq.
Qed.

Lemma scan_chunk_frame_inf :
  scan_chunk frame_inf = Some (PInf, Fin (456 / 100), Fin (789 / 100), Fin (12 / 100)).
Proof.
  rewrite (scan_chunk_first_marker frame_inf 0 (first_marker_0 frame_inf eq_refl)).
  rewrite parse_fields_frame_inf. reflexivity.
Qed.

Lemma scan_chunk_frame_ok :
  scan_chunk frame_ok
  = Some (Fin (123 / 100), Fin (456 / 100), Fin (789 / 100), Fin (12 / 100)).
Proof.
  rewrite (scan_chunk_first_marker frame_ok 0 (first_marker_0 frame_ok eq_refl)).
  rewrite parse_fields_frame_ok. reflexivity.
Qed.

(** C10 fails on the code when the readings are not finite.  With the
    default [repeat = 5] and tolerance 0.1, three frames whose room field
    reads [inf] give the room column three infinite samples: the range and
    the median are infinite, every deviation is [nan] or [inf], nothing
    is kept and [correct] returns [nan]. *)
Lemma correct_odd_infinite_counterexample :
  (exists vs,
     collect repeat_default port_inf = Some (vs, []) /\
     col_room vs = [PInf; PInf; PInf; Fin (123 / 100); Fin (123 / 100)]) /\
  Nat.odd (List.length [PInf; PInf; PInf; Fin (123 / 100); Fin (123 / 100)]) = true /\
  fgt TOL_default (Fin 0) = true /\
  ptp [PInf; PInf; PInf; Fin (123 / 100); Fin (123 / 100)] = Returns PInf /\
  fgt PInf TOL_default = true /\
  kept [PInf; PInf; PInf; Fin (123 / 100); Fin (123 / 100)] TOL_default = [] /\
  correct [PInf; PInf; PInf; Fin (123 / 100); Fin (123 / 100)] TOL_default = Returns NaN.
Proof.
  assert (Hp : ptp [PInf; PInf; PInf; Fin (123 / 100); Fin (123 / 100)] = Returns PInf).
  { unfold ptp; feval; reflexivity. }
  assert (Hk : kept [PInf; PInf; PInf; Fin (123 / 100); Fin (123 / 100)] TOL_default = []).
  { unfold kept, median, within, TOL_default; feval; reflexivity. }
  split; [|repeat split; try assumption; try reflexivity].
  - eexists. unfold repeat_default, port_inf.
    repeat (progress (cbn [collect get_voltages];
                      rewrite ?scan_chunk_frame_inf, ?scan_chunk_frame_ok)).
    split; reflexivity.
  - unfold fgt, TOL_default; feval; reflexivity.
  - rewrite (correct_outlier_branch _ TOL_default _ Hp eq_refl), Hk, mean_nil; reflexivity.
Qed.

(** ** The model on examples *)



(** [sort] sorts an array that holds no [nan]. *)
Lemma insert_sorted (a : float64) (l : ndarray) :
  isnan a = false -> nonan l -> sorted l -> sorted (insert a l).
Proof.
  intros Ha. induction l as [|b l IH]; intros Hn Hs; cbn; [auto|].
  inversion Hn as [|? ? Hb Hl]; subst.
  destruct (fle a b) eqn:E.
  - cbn. split; [exact E|]. exact Hs.
  - destruct Hs as [Hhd Htl]. specialize (IH Hl Htl).
    cbn. split; [|exact IH].
    destruct l as [|c l]; cbn.
    + apply fle_total; assumption.
    + destruct (fle a c); [apply fle_total; assumption | exact Hhd].
Qed.

Lemma insert_nonan (a : float64) (l : ndarray) :
  isnan a = false -> nonan l -> nonan (insert a l).
Proof.
  intros Ha Hn. unfold nonan in *. rewrite Forall_forall in *.
  intros x Hx. apply insert_In in Hx. destruct Hx as [-> | Hx]; auto.
Qed.

Lemma sort_sorted (l : ndarray) : nonan l -> sorted (sort l) /\ nonan (sort l).
Proof.
  induction l as [|a l IH]; intros Hn; cbn.
  - split; [exact I | constructor].
  - inversion Hn as [|? ? Ha Hl]; subst. destruct (IH Hl) as [Hs Hn'].
    split; [apply insert_sorted | apply insert_nonan]; assumption.
Qed.

(** The columns [correct] receives hold [repeat] values. *)
Lemma collect_length (repeat : nat) :
  forall ser vs ser', collect repeat ser = Some (vs, ser') -> List.length vs = repeat.
Proof.
  induction repeat as [|n IH]; intros ser vs ser' H; cbn in H.
  - injection H as <- _. reflexivity.
  - destruct (get_voltages ser) as [[v s1]|]; [|discriminate].
    destruct (collect n s1) as [[vs' s2]|] eqn:E; [|discriminate].
    injection H as <- _. cbn. rewrite (IH s1 vs' s2 E). reflexivity.
Qed.

Lemma default_columns_odd (ser ser' : port) (vs : list voltages) :
  collect repeat_default ser = Some (vs, ser') ->
  Nat.odd (List.length (col_room vs)) = true /\
  Nat.odd (List.length (col_cryo vs)) = true /\
  Nat.odd (List.length (col_ICR vs)) = true /\
  Nat.odd (List.length (col_ICH vs)) = true.
Proof.
  intros H. apply collect_length in H.
  unfold col_room, col_cryo, col_ICR, col_ICH. rewrite !length_map.
  unfold voltages in *. rewrite H. repeat split.
Qed.

(** Four consistent readings and a shifted one: the shifted reading is
    dropped and the mean of the four is returned. *)
Example correct_shifted_reading :
  correct [Fin 1; Fin (102 / 100); Fin 9; Fin (98 / 100); Fin 1] TOL_default
  = Returns (Fin 1).
Proof.
  rewrite (correct_outlier_branch _ TOL_default (fsub (Fin 9) (Fin (98 / 100)))).
  - unfold kept, median, mean, asum, of_nat, TOL_default. feval. fin_eq.
  - unfold ptp. feval. reflexivity.
  - unfold TOL_default. feval. reflexivity.
Qed.

Example sort_example :
  sort [Fin 3; NInf; Fin 1; PInf; Fin 2] = [NInf; Fin 1; Fin 2; Fin 3; PInf].
Proof. feval. reflexivity. Qed.

Example py_float_examples :
  py_float " -1_0.5e-1 " = Returns (Fin (- (105 / 100))) /\
  py_float "+INF" = Returns PInf /\
  py_float "nan" = Returns NaN /\
  py_float "1.2.3" = Raises ValueError /\
  py_float "12a" = Raises ValueError.
Proof.
  repeat split; try reflexivity.
  run_parser. cbn. change (Pos.to_nat 2) with 2%nat; cbn [pow]. fin_eq.
Qed.

(* ================================================================== *)
(** * Part III.  Further properties of the code                        *)
(* ================================================================== *)

(** ** The stream of reads *)

(** X1.  [read_series] returns the first read that decodes, together with
    the reads after it, having dropped exactly the undecodable reads before
    it; it returns nothing only when no read left decodes. *)
Theorem read_series_first_text (ser : port) :
  (forall hlp ser',
     read_series ser = Some (hlp, ser') <->
     exists k, ser = repeat Garbled k ++ Text hlp :: ser') /\
  (read_series ser = None <-> Forall (fun c => c = Garbled) ser).
Proof.
  induction ser as [|[h|] ser [IH1 IH2]]; split.
  - intros hlp ser'; split; [discriminate|].
    intros [[|k] H]; discriminate.
  - split; [constructor | reflexivity].
  - intros hlp ser'; cbn; split.
    + intros H; injection H as -> ->. exists 0%nat. reflexivity.
    + intros [[|k] H]; cbn in H; [|discriminate]. injection H as -> ->. reflexivity.
  - cbn; split; [discriminate|]. intros H; inversion H; discriminate.
  - intros hlp ser'; cbn; rewrite IH1; split.
    + intros [k ->]. exists (S k). reflexivity.
    + intros [[|k] H]; cbn in H; [discriminate|]. injection H as ->. exists k; reflexivity.
  - cbn; rewrite IH2; split.
    + intros H; constructor; [reflexivity | exact H].
    + intros H; inversion H; assumption.
Qed.

Lemma get_voltages_cons (c : chunk) (ser : port) :
  get_voltages (c :: ser) =
  match converts c with
  | Some v => Some (v, ser)
  | None => get_voltages ser
  end.
Proof. destruct c; reflexivity. Qed.

(** X2.  [get_voltages] returns the voltages of the first read whose first
    frame converts, together with the reads after it: every read before it
    was consumed and contributed nothing.  It returns nothing only when no
    read left converts. *)
Theorem get_voltages_first_converted (ser : port) :
  (forall v ser',
     get_voltages ser = Some (v, ser') <->
     exists pre c,
       ser = pre ++ c :: ser' /\ converts c = Some v /\
       Forall (fun c' => converts c' = None) pre) /\
  (get_voltages ser = None <-> Forall (fun c => converts c = None) ser).
Proof.
  induction ser as [|c ser [IH1 IH2]]; split.
  - intros v ser'; split; [discriminate|].
    intros ([|c pre] & c' & H & _); discriminate.
  - split; [constructor | reflexivity].
  - intros v ser'; rewrite get_voltages_cons.
    destruct (converts c) as [v0|] eqn:E; split.
    + intros H; injection H as -> ->. exists [], c. repeat split; [exact E | constructor].
    + intros ([|c0 pre] & c' & H & Hc & Hpre); cbn in H.
      * injection H as -> ->. congruence.
      * injection H as -> ->. inversion Hpre; congruence.
    + intros H. apply IH1 in H. destruct H as (pre & c' & -> & Hc & Hpre).
      exists (c :: pre), c'. repeat split; [exact Hc | constructor; assumption].
    + intros ([|c0 pre] & c' & H & Hc & Hpre); cbn in H.
      * injection H as -> ->. congruence.
      * injection H as -> ->. apply IH1. exists pre, c'.
        repeat split; [exact Hc | inversion Hpre; assumption].
  - rewrite get_voltages_cons. destruct (converts c) as [v0|] eqn:E; split.
    + discriminate.
    + intros H; inversion H; congruence.
    + intros H; constructor; [exact E | apply IH2, H].
    + intros H; apply IH2; inversion H; assumption.
Qed.

Lemma yields_app (a b : port) : yields (a ++ b) = yields a ++ yields b.
Proof. unfold yields. apply flat_map_app. Qed.

Lemma yields_cons (c : chunk) (ser : port) :
  yields (c :: ser) =
  match converts c with Some v => v :: yields ser | None => yields ser end.
Proof. unfold yields; cbn. destruct (converts c); reflexivity. Qed.

Lemma get_voltages_yields (ser : port) :
  forall ser' v, get_voltages ser = Some (v, ser') ->
                 exists pre, ser = pre ++ ser' /\ yields pre = [v].
Proof.
  induction ser as [|c ser IH]; intros ser' v H; [discriminate|].
  rewrite get_voltages_cons in H. destruct (converts c) as [v0|] eqn:E.
  - injection H as -> ->. exists [c]. split; [reflexivity|].
    rewrite yields_cons, E. reflexivity.
  - destruct (IH ser' v H) as (pre & -> & Y). exists (c :: pre).
    split; [reflexivity|]. rewrite yields_cons, E. exact Y.
Qed.

Lemma get_voltages_none_yields (ser : port) :
  get_voltages ser = None -> yields ser = [].
Proof.
  induction ser as [|c ser IH]; intros H; [reflexivity|].
  rewrite get_voltages_cons in H. rewrite yields_cons.
  destruct (converts c); [discriminate | apply IH, H].
Qed.

(** X3.  The collection loop of [get_pressure_temperature] returns exactly
    the first [repeat] quadruples that the stream yields, in order, none
    skipped and none used twice, and leaves the reads after the last one
    it used; it falls short only when the reads left yield fewer than
    [repeat] quadruples. *)
Theorem collect_first_frames (repeat : nat) (ser : port) :
  (forall vs ser',
     collect repeat ser = Some (vs, ser') ->
     List.length vs = repeat /\
     vs = firstn repeat (yields ser) /\
     exists pre, ser = pre ++ ser' /\ yields pre = vs) /\
  (collect repeat ser = None <-> (List.length (yields ser) < repeat)%nat).
Proof.
  revert ser. induction repeat as [|n IH]; intros ser; split.
  - intros vs ser' H. cbn in H. injection H as <- <-.
    repeat split. exists []. split; reflexivity.
  - cbn. split; [discriminate | lia].
  - intros vs ser' H. cbn in H.
    destruct (get_voltages ser) as [[v s1]|] eqn:G; [|discriminate].
    destruct (collect n s1) as [[vs' s2]|] eqn:Cn; [|discriminate].
    injection H as <- <-.
    destruct (get_voltages_yields ser s1 v G) as (pre1 & -> & Y1).
    destruct (proj1 (IH s1) vs' s2 Cn) as (Hl & Hf & pre2 & -> & Y2).
    repeat split.
    + cbn. rewrite Hl. reflexivity.
    + rewrite yields_app, Y1. cbn. rewrite <- Hf. reflexivity.
    + exists (pre1 ++ pre2). split; [apply app_assoc|].
      rewrite yields_app, Y1, Y2. reflexivity.
  - cbn. destruct (get_voltages ser) as [[v s1]|] eqn:G.
    + destruct (get_voltages_yields ser s1 v G) as (pre1 & -> & Y1).
      rewrite yields_app, Y1. cbn [List.length app].
      destruct (collect n s1) as [[vs' s2]|] eqn:Cn; split; try discriminate.
      * intros Hlt. exfalso.
        assert (Hn : collect n s1 = None) by (apply (proj2 (IH s1)); lia).
        congruence.
      * intros _. apply (proj2 (IH s1)) in Cn. lia.
      * reflexivity.
    + rewrite (get_voltages_none_yields ser G). cbn. split; [lia | reflexivity].
Qed.

(** ** Bounds on what [correct] returns *)













(** ** One measurement: collect, correct, convert *)

Lemma correct_nonempty_returns (vols : ndarray) (TOL : float64) :
  vols <> [] -> exists x, correct vols TOL = Returns x.
Proof.
  intros Hne. destruct vols as [|a l]; [contradiction|]. rewrite correct_unfold.
  destruct (fgt (fsub (amax1 a l) (amin1 a l)) TOL); eauto.
Qed.

Lemma map_nonempty {X Y : Type} (f : X -> Y) (l : list X) : l <> [] -> map f l <> [].
Proof. destruct l; [contradiction | discriminate]. Qed.

(** X6.  When enough frames arrive, [get_pressure_temperature] raises in
    one case only: [repeat = 0], where nothing is read and the range of
    an empty array raises [ValueError].  For every [repeat >= 1] it
    returns a quadruple, whatever the readings and the tolerance. *)
Theorem get_pressure_temperature_raises_only_empty
  (repeat : nat) (TOL : float64) (ser ser' : port) (r : outcome voltages) :
  get_pressure_temperature repeat TOL ser = Some (r, ser') ->
  (repeat = 0%nat -> r = Raises ValueError /\ ser' = ser) /\
  (repeat <> 0%nat -> exists q, r = Returns q).
Proof.
  unfold get_pressure_temperature. intros H.
  destruct (collect repeat ser) as [[vs s1]|] eqn:Cn; [|discriminate].
  injection H as <- <-. pose proof (collect_length repeat ser vs s1 Cn) as Hl.
  split.
  - intros ->. cbn in Cn. injection Cn as <- <-. split; reflexivity.
  - intros Hr. assert (Hne : vs <> []) by (intros ->; cbn in Hl; lia).
    destruct (correct_nonempty_returns (col_room vs) TOL (map_nonempty _ vs Hne)) as [a ->].
    destruct (correct_nonempty_returns (col_cryo vs) TOL (map_nonempty _ vs Hne)) as [b ->].
    destruct (correct_nonempty_returns (col_ICR vs) TOL (map_nonempty _ vs Hne)) as [c ->].
    destruct (correct_nonempty_returns (col_ICH vs) TOL (map_nonempty _ vs Hne)) as [d ->].
    cbn. unfold convert. eauto.
Qed.

(** X6 on an instance: five whole frames, default configuration. *)
Lemma get_pressure_temperature_raises_only_empty_witness :
  exists r,
    get_pressure_temperature repeat_default TOL_default
      [Text frame_ok; Text frame_ok; Text frame_ok; Text frame_ok; Text frame_ok]
    = Some (r, []) /\
    (repeat_default = 0%nat -> r = Raises ValueError /\ [] = 
       [Text frame_ok; Text frame_ok; Text frame_ok; Text frame_ok; Text frame_ok]) /\
    (repeat_default <> 0%nat -> exists q, r = Returns q).
Proof.
  assert (Hc : collect repeat_default
                 [Text frame_ok; Text frame_ok; Text frame_ok; Text frame_ok; Text frame_ok]
               = Some (List.repeat (Fin (123 / 100), Fin (456 / 100), Fin (789 / 100), Fin (12 / 100)) 5, [])).
  { unfold repeat_default.
    repeat (progress (cbn [collect get_voltages]; rewrite ?scan_chunk_frame_ok)).
    reflexivity. }
  eexists. split.
  - unfold get_pressure_temperature. rewrite Hc. reflexivity.
  - apply (get_pressure_temperature_raises_only_empty repeat_default TOL_default
             [Text frame_ok; Text frame_ok; Text frame_ok; Text frame_ok; Text frame_ok] []).
    unfold get_pressure_temperature. rewrite Hc. reflexivity.
Defined.





(** ** The calibration curves of [convert] *)











(** ** Traces of the logger loop *)

Lemma channel_eqb_eq (c c' : channel) : channel_eqb c c' = true <-> c = c'.
Proof. destruct c, c'; cbn; split; intros H; try reflexivity; discriminate. Qed.

Lemma log_name_eqb (c c' : channel) (d d' : string) :
  String.eqb (log_name c d) (log_name c' d') = channel_eqb c c' && String.eqb d d'.
Proof.
  destruct (String.eqb_spec (log_name c d) (log_name c' d')) as [E | N].
  - apply log_name_inj in E. destruct E as [-> ->].
    rewrite String.eqb_refl. symmetry. apply andb_true_iff. split; [|reflexivity].
    apply channel_eqb_eq. reflexivity.
  - symmetry. apply not_true_is_false. intros H. apply andb_true_iff in H.
    destruct H as [Hc Hd]. apply channel_eqb_eq in Hc. apply String.eqb_eq in Hd.
    subst. apply N. reflexivity.
Qed.

Ltac names := repeat (rewrite ?log_name_eqb, ?String.eqb_refl; cbn).

Lemma replay_app (evs1 evs2 : list event) :
  forall opened,
    replay opened (evs1 ++ evs2) =
    match replay opened evs1 with
    | Some opened' => replay opened' evs2
    | None => None
    end.
Proof.
  induction evs1 as [|e evs1 IH]; intros opened; [reflexivity|].
  destruct e; cbn [app replay];
    try (destruct (is_open name opened); [|reflexivity]); try apply IH.
  - destruct (is_open name opened); [reflexivity | apply IH].
Qed.

Lemma replay_harmless (opened : list string) (evs : list event) :
  Forall (harmless opened) evs -> replay opened evs = Some opened.
Proof.
  induction 1 as [|e evs He _ IH]; [reflexivity|].
  destruct e; cbn in *; try contradiction; try rewrite He; exact IH.
Qed.

Lemma Forall_firstn_of {X : Type} (P : X -> Prop) (n : nat) (l : list X) :
  Forall P l -> Forall P (firstn n l).
Proof.
  intros H. apply Forall_forall. intros x Hx. rewrite Forall_forall in H.
  apply H. eapply In_firstn. exact Hx.
Qed.

Lemma body_events_harmless (d : string) (text : log_text) :
  Forall (harmless (files_of d)) (body_events (files_of d) text).
Proof.
  unfold files_of, body_events, harmless, is_open.
  repeat constructor; cbn [existsb]; names; reflexivity.
Qed.

Lemma replay_open_files (d : string) :
  replay [] (map Open (files_of d)) = Some (files_of d).
Proof. unfold files_of, is_open. cbn [map replay is_open existsb app]. names. reflexivity. Qed.

Lemma replay_close_files (d : string) :
  replay (files_of d) (map Close (rev (files_of d))) = Some [].
Proof.
  unfold files_of. cbn [rev app map]. unfold replay, is_open.
  cbn [existsb filter]. names. reflexivity.
Qed.

Lemma step_replay (s s' : RotationState) (w w' : world) (ev : list event) :
  well_formed s -> step s w = Some (s', ev, w') ->
  well_formed s' /\ replay (files s) ev = Some (files s').
Proof.
  unfold well_formed, step. intros Hwf Hs.
  destruct s as [cd fs p]; cbn in *. destruct p.
  - injection Hs as <- <- <-. subst fs. cbn. split; [reflexivity | apply replay_open_files].
  - destruct (clock w) as [|date cl]; [discriminate|].
    destruct (String.eqb date cd); injection Hs as <- <- <-; cbn.
    + split; [exact Hwf | reflexivity].
    + subst fs. split; [reflexivity | apply replay_close_files].
  - destruct (attempts w) as [|[|text k] att]; [discriminate| |];
      injection Hs as <- <- <-; cbn.
    + split; [exact Hwf | reflexivity].
    + split.
      * match goal with |- context [if ?b then Inner else Retry] => destruct b end;
          exact Hwf.
      * subst fs. apply replay_harmless, Forall_firstn_of, body_events_harmless.
Qed.

(** X11.  In every run of the loop from a well-formed rotation state,
    every write and every flush goes to a file that is open at that
    moment, no file is opened while it is open or closed while it is not,
    and the files open at the end are those of the final rotation state:
    none before the [with] statement, the four files of [current_date]
    inside it. *)
Theorem run_respects_open_files (n : nat) :
  forall s w,
    well_formed s ->
    replay (files s) (trace n s w) = Some (files (fst (fst (run n s w)))) /\
    well_formed (fst (fst (run n s w))).
Proof.
  unfold trace. induction n as [|n IH]; intros s w Hwf; cbn [run].
  - split; [reflexivity | exact Hwf].
  - destruct (step s w) as [[[s' ev] w']|] eqn:Es; [|split; [reflexivity | exact Hwf]].
    destruct (step_replay s s' w w' ev Hwf Es) as [Hwf' Hr].
    destruct (IH s' w' Hwf') as [IH1 IH2].
    destruct (run n s' w') as [[s'' ev'] w'']. cbn in *.
    split; [|exact IH2]. rewrite replay_app, Hr. exact IH1.
Qed.

(** X11 on an instance: a rotation from day 1 to day 2 followed by a
    complete cycle. *)
Lemma run_respects_open_files_witness :
  replay (files (inner_state day1))
         (trace 4 (inner_state day1)
                {| clock := [day2; day2]; attempts := [Ran some_text 9] |})
  = Some (files (fst (fst (run 4 (inner_state day1)
                               {| clock := [day2; day2]; attempts := [Ran some_text 9] |})))) /\
  well_formed (fst (fst (run 4 (inner_state day1)
                             {| clock := [day2; day2]; attempts := [Ran some_text 9] |}))).
Proof.
  apply (run_respects_open_files 4 (inner_state day1)). reflexivity.
Defined.

Lemma lines_written_app (name : string) (evs1 evs2 : list event) :
  lines_written name (evs1 ++ evs2)
  = (lines_written name evs1 + lines_written name evs2)%nat.
Proof.
  induction evs1 as [|e evs1 IH]; [reflexivity|].
  destruct e; cbn [app lines_written]; try exact IH.
  destruct (String.eqb name0 name); [rewrite IH; reflexivity | exact IH].
Qed.

(** The lines of one execution of the [try] body, complete or cut short:
    the four files are written in a fixed order, so a file never gets a
    line that the files before it did not get. *)
Lemma body_lines_ordered (cd d : string) (text : log_text) (k : nat) :
  let evs := firstn k (body_events (files_of cd) text) in
  (lines_written (log_name Temp d) evs <= lines_written (log_name Rough d) evs)%nat /\
  (lines_written (log_name Rough d) evs <= lines_written (log_name Cryo d) evs)%nat /\
  (lines_written (log_name Cryo d) evs <= lines_written (log_name Room d) evs)%nat.
Proof.
  unfold files_of, body_events.
  do 9 (destruct k as [|k]; [cbn [firstn lines_written]; names;
                             destruct (String.eqb cd d); cbn; lia|]).
  cbn [firstn lines_written]. names. rewrite firstn_nil. cbn [lines_written].
  destruct (String.eqb cd d); cbn; lia.
Qed.

Lemma step_lines_ordered (s s' : RotationState) (w w' : world) (ev : list event) (d : string) :
  well_formed s -> step s w = Some (s', ev, w') ->
  (lines_written (log_name Temp d) ev <= lines_written (log_name Rough d) ev)%nat /\
  (lines_written (log_name Rough d) ev <= lines_written (log_name Cryo d) ev)%nat /\
  (lines_written (log_name Cryo d) ev <= lines_written (log_name Room d) ev)%nat.
Proof.
  unfold well_formed, step. intros Hwf Hs.
  destruct s as [cd fs p]; cbn in *. destruct p.
  - injection Hs as <- <- <-. cbn. lia.
  - destruct (clock w) as [|date cl]; [discriminate|].
    destruct (String.eqb date cd); injection Hs as <- <- <-.
    + cbn. lia.
    + subst fs. cbn. lia.
  - destruct (attempts w) as [|[|text k] att]; [discriminate| |];
      injection Hs as <- <- <-.
    + cbn. lia.
    + subst fs. apply body_lines_ordered.
Qed.

(** X12.  In every run of the loop from a well-formed rotation state, and
    for every date, the temperature file has received at most as many
    lines as the foreline file, the foreline file at most as many as the
    dewar file, and the dewar file at most as many as the chamber file:
    an execution cut short by an exception leaves its first lines
    written, never its last ones alone. *)
Theorem run_lines_ordered (n : nat) :
  forall s w d,
    well_formed s ->
    (lines_written (log_name Temp d) (trace n s w)
     <= lines_written (log_name Rough d) (trace n s w))%nat /\
    (lines_written (log_name Rough d) (trace n s w)
     <= lines_written (log_name Cryo d) (trace n s w))%nat /\
    (lines_written (log_name Cryo d) (trace n s w)
     <= lines_written (log_name Room d) (trace n s w))%nat.
Proof.
  unfold trace. induction n as [|n IH]; intros s w d Hwf; cbn [run].
  - cbn. lia.
  - destruct (step s w) as [[[s' ev] w']|] eqn:Es; [|cbn; lia].
    destruct (step_replay s s' w w' ev Hwf Es) as [Hwf' _].
    pose proof (step_lines_ordered s s' w w' ev d Hwf Es) as Hev.
    specialize (IH s' w' d Hwf').
    destruct (run n s' w') as [[s'' ev'] w'']. cbn in *.
    rewrite !lines_written_app. lia.
Qed.

(** X12 on an instance: an execution that fails after two writes, then a
    complete one. *)
Lemma run_lines_ordered_witness :
  (lines_written (log_name Temp day1)
     (trace 3 (inner_state day1)
            {| clock := [day1]; attempts := [Ran some_text 2; Ran some_text 9] |})
   <= lines_written (log_name Rough day1)
        (trace 3 (inner_state day1)
               {| clock := [day1]; attempts := [Ran some_text 2; Ran some_text 9] |}))%nat /\
  (lines_written (log_name Rough day1)
     (trace 3 (inner_state day1)
            {| clock := [day1]; attempts := [Ran some_text 2; Ran some_text 9] |})
   <= lines_written (log_name Cryo day1)
        (trace 3 (inner_state day1)
               {| clock := [day1]; attempts := [Ran some_text 2; Ran some_text 9] |}))%nat /\
  (lines_written (log_name Cryo day1)
     (trace 3 (inner_state day1)
            {| clock := [day1]; attempts := [Ran some_text 2; Ran some_text 9] |})
   <= lines_written (log_name Room day1)
        (trace 3 (inner_state day1)
               {| clock := [day1]; attempts := [Ran some_text 2; Ran some_text 9] |}))%nat.
Proof.
  apply (run_lines_ordered 3 (inner_state day1)). reflexivity.
Defined.

Lemma run_prepend_cycle (m : nat) (d : string) (text : log_text)
      (cl : list string) (att : list attempt) :
  run (S (S m)) (inner_state d) {| clock := d :: cl; attempts := Ran text 9 :: att |}
  = let '(s, ev, w) := run m (inner_state d) {| clock := cl; attempts := att |} in
    (s, body_events (files_of d) text ++ ev, w).
Proof.
  cbn [run step inner_state at_pc clock current_date files]. rewrite String.eqb_refl.
  cbn [run step inner_state at_pc clock current_date files tick spend attempts Nat.leb].
  change {| current_date := d; files := files_of d; at_pc := Inner |} with (inner_state d).
  unfold spend, tick. cbn [clock attempts].
  change (firstn 9 (body_events (files_of d) text)) with (body_events (files_of d) text).
  destruct (run m (inner_state d) {| clock := cl; attempts := att |}) as [[s ev] w].
  reflexivity.
Qed.

Lemma body_lines_each (c : channel) (d : string) (text : log_text) :
  lines_written (log_name c d) (body_events (files_of d) text) = 1%nat.
Proof.
  unfold files_of, body_events. cbn [lines_written]. names.
  destruct c; reflexivity.
Qed.

(** X13.  While the clock stays on [current_date] and every execution of
    the [try] body completes, the loop performs the cycles one after the
    other: the trace is the nine events of each cycle, in the order of the
    cycles, and each of the four files receives exactly one line per
    cycle; no file is closed or reopened in between. *)
Theorem run_successful_cycles
  (d : string) (texts : list log_text) (cl : list string) (att : list attempt) :
  run (2 * List.length texts) (inner_state d)
      {| clock := List.repeat d (List.length texts) ++ cl;
         attempts := map (fun text => Ran text 9) texts ++ att |}
  = (inner_state d,
     flat_map (body_events (files_of d)) texts,
     {| clock := cl; attempts := att |}) /\
  forall c,
    lines_written (log_name c d) (flat_map (body_events (files_of d)) texts)
    = List.length texts.
Proof.
  split.
  - induction texts as [|text texts IH]; [reflexivity|].
    replace (2 * List.length (text :: texts))%nat
      with (S (S (2 * List.length texts))) by (cbn [List.length]; lia).
    cbn [List.length List.repeat map app flat_map].
    rewrite run_prepend_cycle, IH. reflexivity.
  - intros c. induction texts as [|text texts IH]; [reflexivity|].
    cbn [flat_map List.length]. rewrite lines_written_app, body_lines_each, IH.
    reflexivity.
Qed.

(** ** The secondary gauge *)

Lemma substring_length (s : string) :
  forall a n, String.length (String.substring a n s) = Nat.min n (String.length s - a).
Proof.
  induction s as [|c s IH]; intros [|a] [|n]; cbn; try reflexivity.
  - rewrite IH. rewrite Nat.sub_0_r. reflexivity.
  - rewrite IH. reflexivity.
  - rewrite IH. reflexivity.
Qed.

(** X14.  When the reply of the gauge decodes, [readout_275gauge] raises
    nothing and returns the characters 4 to 11 of the reply as far as they
    exist: 8 characters when the reply has at least 12, fewer when it is
    shorter, and the empty string when it has at most 4 (a timeout).  It
    raises only when the reply does not decode. *)
Theorem readout_275gauge_payload (address : string) (g : gauge) :
  (forall recv,
     g ("#" ++ address ++ "RD " ++ CR_string)%string = Text recv ->
     exists pressure,
       readout_275gauge address g = Returns pressure /\
       String.length pressure = Nat.min 8 (Nat.min 13 (String.length recv) - 4) /\
       (forall i, (i < 8)%nat -> String.get i pressure = String.get (i + 4) recv) /\
       ((String.length recv <= 4)%nat -> pressure = EmptyString)) /\
  (g ("#" ++ address ++ "RD " ++ CR_string)%string = Garbled ->
   readout_275gauge address g = Raises ValueError).
Proof.
  unfold readout_275gauge. split.
  - intros recv ->. eexists. split; [reflexivity|]. unfold slice.
    change (12 - 4)%nat with 8%nat. repeat split.
    + rewrite !substring_length, Nat.sub_0_r. reflexivity.
    + intros i Hi. rewrite (substring_correct1 _ 4 8 i Hi).
      rewrite (substring_correct1 recv 0 13 (i + 4)) by lia.
      rewrite Nat.add_0_r. reflexivity.
    + intros Hl. apply substring_past_end. rewrite substring_length. lia.
  - intros ->. reflexivity.
Qed.

(** ** One text, completely *)

Lemma scan_some (hlp : string) (v : voltages) :
  forall rest k,
    skipn k (String.list_ascii_of_string hlp) = rest ->
    scan hlp k rest = Some v ->
    exists i, (k <= i)%nat /\ marker_at hlp i = true /\
              (forall j, (k <= j < i)%nat -> marker_at hlp j = false) /\
              parse_fields hlp i = Returns v.
Proof.
  induction rest as [|c rest IH]; intros k Hk Hs; [discriminate|].
  apply skipn_cons_nth in Hk. destruct Hk as [Hc Hrest].
  rewrite <- get_nth_error in Hc. cbn [scan] in Hs.
  destruct (marker_at hlp k) eqn:Hm.
  - rewrite (try_frame_marker hlp k c Hc Hm) in Hs.
    destruct (parse_fields hlp k) as [v0|e] eqn:P; cbn in Hs; [|discriminate].
    injection Hs as ->. exists k.
    split; [lia|]. split; [exact Hm|]. split; [intros j Hj; lia | exact P].
  - destruct (try_frame_no_marker hlp k c Hc Hm) as [E | E]; rewrite E in Hs;
      [|discriminate].
    destruct (IH (S k) Hrest Hs) as (i & Hi & Hmi & Hbefore & P).
    exists i. split; [lia|]. split; [exact Hmi|]. split; [|exact P].
    intros j Hj. destruct (Nat.eq_dec j k) as [-> | Hne]; [exact Hm | apply Hbefore; lia].
Qed.

(** X15.  A decoded text yields voltages exactly when it has a first
    newline-then-4 marker and the four fields after that marker all
    parse; the voltages are then those four values. *)
Theorem scan_chunk_iff (hlp : string) (v : voltages) :
  scan_chunk hlp = Some v <->
  exists i, first_marker hlp i /\ parse_fields hlp i = Returns v.
Proof.
  split.
  - intros H. unfold scan_chunk in H.
    destruct (scan_some hlp v _ 0%nat eq_refl H) as (i & _ & Hm & Hbefore & P).
    exists i. split; [|exact P]. split; [exact Hm|].
    intros j Hj. apply Hbefore. lia.
  - intros (i & Hm & P). rewrite (scan_chunk_first_marker hlp i Hm), P. reflexivity.
Qed.

(** ** An execution that fails after its writes *)

(** X16.  An execution of the [try] body that raises after its four
    writes (during a flush or the sleep) is not undone: the retry writes
    four more lines, so the cycle leaves two lines in each of the four
    files, with no rotation and no sleep in between. *)
Theorem run_failed_cycle_duplicates
  (d : string) (text text' : log_text) (k : nat)
  (cl : list string) (att : list attempt) (c : channel) :
  (4 <= k < 9)%nat ->
  run 3 (inner_state d)
      {| clock := d :: cl; attempts := Ran text k :: Ran text' 9 :: att |}
  = (inner_state d,
     firstn k (body_events (files_of d) text) ++ body_events (files_of d) text',
     {| clock := cl; attempts := att |}) /\
  lines_written (log_name c d)
    (firstn k (body_events (files_of d) text) ++ body_events (files_of d) text') = 2%nat.
Proof.
  intros Hk.
  assert (Hcases : (k = 4 \/ k = 5 \/ k = 6 \/ k = 7 \/ k = 8)%nat) by lia.
  split.
  - cbn [run step inner_state at_pc clock current_date files]. rewrite String.eqb_refl.
    cbn [run step inner_state at_pc clock current_date files tick spend attempts].
    replace (9 <=? k)%nat with false by (symmetry; apply Nat.leb_gt; lia).
    cbn [run step inner_state at_pc clock current_date files tick spend attempts Nat.leb].
    unfold inner_state. rewrite !app_nil_r. cbn [app]. reflexivity.
  - rewrite lines_written_app, body_lines_each.
    destruct Hcases as [-> | [-> | [-> | [-> | ->]]]];
      unfold files_of, body_events; cbn [firstn lines_written]; names;
      destruct c; reflexivity.
Qed.

(** X16 on an instance: the sleep is interrupted. *)
Lemma run_failed_cycle_duplicates_witness :
  run 3 (inner_state day1)
      {| clock := [day1]; attempts := [Ran some_text 8; Ran some_text 9] |}
  = (inner_state day1,
     firstn 8 (body_events (files_of day1) some_text)
     ++ body_events (files_of day1) some_text,
     {| clock := []; attempts := [] |}) /\
  lines_written (log_name Room day1)
    (firstn 8 (body_events (files_of day1) some_text)
     ++ body_events (files_of day1) some_text) = 2%nat.
Proof.
  apply (run_failed_cycle_duplicates day1 some_text some_text 8 [] [] Room). lia.
Defined.
